(** * Error classification, retry and transaction-retry utilities

    A shallow embedding of

      - [packages/types/src/api/error.ts]      ([ErrorCode], [isApiErrorResponse]),
      - [packages/utils/src/error/error-handler.ts] ([classifyError]),
      - [packages/utils/src/error/error-logger.ts]  ([ErrorLogger]),
      - [packages/utils/src/error/retry.ts]     ([calculateDelay], [withRetry]),
      - [packages/database/src/utils/transactions.ts] ([retryTransaction]),

    followed by the properties of the resilience subsystem.

    Conventions of the embedding.
      - JavaScript numbers that count (attempts, [maxRetries]) are [Z];
        durations, multipliers and random draws are IEEE 754 binary64
        values, computed with the Standard Library's [SpecFloat] operations
        (round to nearest even, infinities, signed zeros, NaN).  [Math.pow],
        which ECMAScript leaves implementation-approximated, is a parameter
        carried by the world, like the stream behind [Math.random].
      - A call that may throw returns a [Completion]; code that reads and
        writes the outside world (the operation being retried, the console,
        [Math.random], timers) is a state transformer over a world record.
      - [async]/[await] is sequential inside one call, so a rejected promise is
        a [Throw] and a fulfilled one a [Normal].
      - Loops are written with a fuel argument; the entry points supply enough
        fuel and are shown never to run out of it. *)

From Stdlib Require Import ZArith SpecFloat.
From Stdlib Require Import String Ascii List Bool Lia.
From Stdlib Require Import DecimalString.
Import ListNotations.

Set Implicit Arguments.

Local Open Scope string_scope.
Local Open Scope Z_scope.

(* ================================================================== *)
(** ** JavaScript values and completions *)

Module Js.

(** The values that flow through [catch (error)] in the modelled code.  The
    declared type is [Error | ApiErrorResponse], but a promise can reject
    with anything, and [retryTransaction] throws an unassigned variable, so
    two values outside the declared type are kept. *)
Inductive JsValue : Type :=
| JsUndefined
| JsString (s : string)
| JsError (name message : string)
    (* an instance of [Error]; [name] and [message] are strings *)
| JsApiError (code message : string).
    (* [{ success: false, error: { code, message, ... } }] *)

Inductive Completion (A : Type) : Type :=
| Normal (a : A)
| Throw (e : JsValue).
Arguments Normal {A} a.
Arguments Throw {A} e.

(** The [TypeError] raised by a property read on [undefined]. *)
Definition TypeError_read (prop : string) : JsValue :=
  JsError "TypeError"
    ("Cannot read properties of undefined (reading '" ++ prop ++ "')").

(** Statements that act on a state [W] and complete normally or abruptly. *)
Definition M (W A : Type) : Type := W -> Completion A * W.

Definition ret {W A} (a : A) : M W A := fun w => (Normal a, w).
Definition throw {W A} (e : JsValue) : M W A := fun w => (Throw e, w).
Definition bind {W A B} (m : M W A) (k : A -> M W B) : M W B :=
  fun w => match m w with
           | (Normal a, w') => k a w'
           | (Throw e, w') => (Throw e, w')
           end.
(** An expression evaluated for its completion only. *)
Definition eval {W A} (c : Completion A) : M W A := fun w => (c, w).
(** A statement that cannot throw. *)
Definition effect {W} (f : W -> W) : M W unit := fun w => (Normal tt, f w).

(** [error instanceof Error] *)
Definition instanceofError (v : JsValue) : bool :=
  match v with JsError _ _ => true | _ => false end.

(** [String.prototype.includes] *)
Fixpoint includes (s sub : string) : bool :=
  if String.prefix sub s then true
  else match s with
       | EmptyString => false
       | String _ rest => includes rest sub
       end.

(** [String.prototype.toLowerCase] on strings of ASCII characters: the
    letters A to Z are mapped, every other byte is kept.  (The method also
    maps a few non-ASCII characters to ASCII letters, U+212A KELVIN SIGN to
    k for one; strings holding such characters are outside the model.) *)
Definition lower_ascii (c : ascii) : ascii :=
  let n := nat_of_ascii c in
  if (Nat.leb 65 n && Nat.leb n 90)%bool then ascii_of_nat (n + 32) else c.

Fixpoint toLowerCase (s : string) : string :=
  match s with
  | EmptyString => EmptyString
  | String c rest => String (lower_ascii c) (toLowerCase rest)
  end.

(** Decimal rendering of an integer inside a template literal. *)
Definition string_of_Z (z : Z) : string :=
  NilEmpty.string_of_int (Z.to_int z).

(** [Array.prototype.includes] on an array of strings. *)
Definition array_includes (xs : list string) (x : string) : bool :=
  existsb (String.eqb x) xs.

End Js.
Export Js.

(* ================================================================== *)
(** ** JavaScript numbers *)

Module Number.

(** The Number type: IEEE 754 binary64. *)
Definition prec : Z := 53.
Definition emax : Z := 1024.
Definition number : Type := spec_float.

(** The double nearest to [m * 2^e]; exact when [m] fits in 53 bits. *)
Definition of_dyadic (m e : Z) : number := binary_normalize prec emax m e false.

(** The Number value of an integer. *)
Definition of_Z (z : Z) : number := of_dyadic z 0.

(** [x + y], [x - y], [x * y], [x / y] *)
Definition add : number -> number -> number := SFadd prec emax.
Definition sub : number -> number -> number := SFsub prec emax.
Definition mul : number -> number -> number := SFmul prec emax.
Definition div : number -> number -> number := SFdiv prec emax.

(** [x < y], [x <= y], [x == y]; all false when an operand is NaN. *)
Definition ltb : number -> number -> bool := SFltb.
Definition leb : number -> number -> bool := SFleb.
Definition eqb : number -> number -> bool := SFeqb.

Definition isNaN (x : number) : bool :=
  match x with S754_nan => true | _ => false end.

(** [Math.min(x, y)]: NaN if either is NaN, and -0 counts as smaller
    than +0. *)
Definition Math_min (x y : number) : number :=
  if (isNaN x || isNaN y)%bool then S754_nan
  else if ltb x y then x
  else if ltb y x then y
  else match x with S754_zero true => x | _ => y end.

Definition zero : number := of_Z 0.
Definition one : number := of_Z 1.

(** The literal [0.1]: the double nearest to one tenth. *)
Definition tenth : number := div one (of_Z 10).

(** The literal [1.5]. *)
Definition one_and_a_half : number := of_dyadic 3 (-1).

(** The integer a number denotes, when it denotes one. *)
Definition integer_value (y : number) : option Z :=
  match y with
  | S754_zero _ => Some 0
  | S754_finite s m e =>
      if 0 <=? e then Some ((if s then -1 else 1) * (Zpos m * 2 ^ e))
      else if (Zpos m mod 2 ^ (- e)) =? 0
           then Some ((if s then -1 else 1) * (Zpos m / 2 ^ (- e)))
           else None
  | _ => None
  end.

(** One function that can stand for [Math.pow] where a concrete run is
    computed: repeated multiplication for an integer exponent (the
    reciprocal for a negative one), NaN otherwise.  It is exact on the
    powers the examples use ([2^n] for small [n], [x^0 = 1]). *)
Definition pow_by_multiplication (x y : number) : number :=
  match integer_value y with
  | Some n =>
      let p := Nat.iter (Z.to_nat (Z.abs n)) (fun acc => mul acc x) one in
      if n <? 0 then div one p else p
  | None => S754_nan
  end.

End Number.
Export Number.

Notation "x <- m ;; k" := (bind m (fun x => k))
  (at level 61, m at next level, right associativity).
Notation "m ;;; k" := (bind m (fun _ => k))
  (at level 61, right associativity).

(* ================================================================== *)
(** ** [packages/types/src/api/error.ts] *)

Module ErrorCode.
(** [enum ErrorCode]: a string enum; its members are their own names. *)
Definition ErrorCode := string.

Definition VALIDATION_ERROR : ErrorCode := "VALIDATION_ERROR".
Definition INVALID_REQUEST : ErrorCode := "INVALID_REQUEST".
Definition UNAUTHORIZED : ErrorCode := "UNAUTHORIZED".
Definition FORBIDDEN : ErrorCode := "FORBIDDEN".
Definition NOT_FOUND : ErrorCode := "NOT_FOUND".
Definition CONFLICT : ErrorCode := "CONFLICT".
Definition RATE_LIMIT_EXCEEDED : ErrorCode := "RATE_LIMIT_EXCEEDED".
Definition TOKEN_EXPIRED : ErrorCode := "TOKEN_EXPIRED".
Definition INVALID_TOKEN : ErrorCode := "INVALID_TOKEN".
Definition TOKEN_MISSING : ErrorCode := "TOKEN_MISSING".
Definition BUSINESS_RULE_VIOLATION : ErrorCode := "BUSINESS_RULE_VIOLATION".
Definition RESOURCE_NOT_AVAILABLE : ErrorCode := "RESOURCE_NOT_AVAILABLE".
Definition OPERATION_NOT_ALLOWED : ErrorCode := "OPERATION_NOT_ALLOWED".
Definition INTERNAL_ERROR : ErrorCode := "INTERNAL_ERROR".
Definition SERVICE_UNAVAILABLE : ErrorCode := "SERVICE_UNAVAILABLE".
Definition DATABASE_ERROR : ErrorCode := "DATABASE_ERROR".
Definition EXTERNAL_SERVICE_ERROR : ErrorCode := "EXTERNAL_SERVICE_ERROR".
End ErrorCode.
Export ErrorCode.

(** The type guard: an object with [success === false] and an object-valued
    [error] property that has a [code]. *)
Definition isApiErrorResponse (error : JsValue) : bool :=
  match error with
  | JsApiError _ _ => true
  | _ => false
  end.

(* ================================================================== *)
(** ** [packages/utils/src/error/error-handler.ts] *)

Module ErrorHandler.

Inductive Severity : Type := low | medium | high | critical.
Inductive Category : Type := user | system | network | business.

Record ErrorClassification : Type := mkClassification {
  isOperational : bool;
  isRetryable : bool;
  severity : Severity;
  category : Category
}.

(** One [case] group of the [switch (code)]. *)
Definition case_of (code : ErrorCode) (labels : list ErrorCode) : bool :=
  existsb (String.eqb code) labels.

Definition classifyApiErrorResponse (code : ErrorCode) : ErrorClassification :=
  if case_of code [VALIDATION_ERROR; INVALID_REQUEST] then
    mkClassification true false low user
  else if case_of code [UNAUTHORIZED; TOKEN_EXPIRED; INVALID_TOKEN; TOKEN_MISSING] then
    mkClassification true false medium user
  else if case_of code [FORBIDDEN; OPERATION_NOT_ALLOWED] then
    mkClassification true false medium business
  else if case_of code [NOT_FOUND; RESOURCE_NOT_AVAILABLE] then
    mkClassification true false low user
  else if case_of code [CONFLICT] then
    mkClassification true false medium business
  else if case_of code [RATE_LIMIT_EXCEEDED] then
    mkClassification true true medium system
  else if case_of code [SERVICE_UNAVAILABLE; EXTERNAL_SERVICE_ERROR] then
    mkClassification true true high network
  else if case_of code [DATABASE_ERROR] then
    mkClassification true true high system
  else (* case INTERNAL_ERROR: default: *)
    mkClassification false false critical system.

Definition classifyJavaScriptError (name0 message0 : string)
  : ErrorClassification :=
  let message := toLowerCase message0 in
  let name := toLowerCase name0 in
  if (includes message "network" || includes message "fetch"
      || includes message "timeout" || includes name "timeout")%bool then
    mkClassification true true medium network
  else if (String.eqb name "validationerror"
           || includes message "validation"
           || includes message "invalid")%bool then
    mkClassification true false low user
  else if (String.eqb name "typeerror" || String.eqb name "referenceerror"
           || String.eqb name "syntaxerror")%bool then
    mkClassification false false critical system
  else
    mkClassification true false medium system.

(** [classifyError].  The non-API branch casts its argument to [Error] and
    evaluates [error.message.toLowerCase()]: on [undefined] the property
    read throws, on a string primitive [message] is [undefined] and the
    method call throws. *)
Definition classifyError (error : JsValue) : Completion ErrorClassification :=
  if isApiErrorResponse error then
    match error with
    | JsApiError code _ => Normal (classifyApiErrorResponse code)
    | _ => Throw (TypeError_read "code")
    end
  else
    match error with
    | JsError name message => Normal (classifyJavaScriptError name message)
    | JsUndefined => Throw (TypeError_read "message")
    | _ => Throw (TypeError_read "toLowerCase")
    end.

End ErrorHandler.
Export ErrorHandler.

(* ================================================================== *)
(** ** [packages/utils/src/error/error-logger.ts] *)

Module ErrorLogger.

Inductive LogLevel : Type := ERROR | WARN | INFO | DEBUG.

Definition LogLevel_eqb (a b : LogLevel) : bool :=
  match a, b with
  | ERROR, ERROR | WARN, WARN | INFO, INFO | DEBUG, DEBUG => true
  | _, _ => false
  end.

(** The part of a [LogEntry] that decides what the logger does.  The
    timestamp, the context map and the correlation fields copied from
    [this.context] are data carried along and are left out. *)
Record LogEntry : Type := mkLogEntry {
  level : LogLevel;
  message : string;
  error : option JsValue;
  classification : option ErrorClassification
}.

(** What [serializeError] returns. *)
Inductive SerializedError : Type :=
| SerApiErrorResponse (code message : string)
| SerJavaScriptError (name message : option string) (withStack : bool).

(** The object handed to the console. *)
Record LogData : Type := mkLogData {
  ld_level : LogLevel;
  ld_message : string;
  ld_classification : option ErrorClassification;
  ld_error : option SerializedError
}.

(** What reaches the console. *)
Inductive Output : Type :=
| Console (method : LogLevel) (data : LogData)
| Monitoring (lvl : LogLevel) (msg : string).
    (* [console.info('Would send to monitoring service:', ...)] *)

Record ErrorLogger : Type := mkErrorLogger {
  isDevelopment : bool
}.

Definition Log (A : Type) : Type := M (list Output) A.

Definition getLogLevel (c : ErrorClassification) : LogLevel :=
  match severity c with
  | critical => ERROR
  | high => ERROR
  | medium => WARN
  | low => INFO
  end.

(** Reading [error.name] / [error.message] where the read does not throw;
    [None] is [undefined]. *)
Definition serializeError (this : ErrorLogger) (error : JsValue)
  : Completion SerializedError :=
  if isApiErrorResponse error then
    match error with
    | JsApiError code msg => Normal (SerApiErrorResponse code msg)
    | _ => Throw (TypeError_read "success")
    end
  else
    match error with
    | JsError name msg =>
        Normal (SerJavaScriptError (Some name) (Some msg) (isDevelopment this))
    | JsUndefined => Throw (TypeError_read "name")
    | _ => Normal (SerJavaScriptError None None (isDevelopment this))
    end.

Definition getDefaultMessage (error : JsValue) : Completion string :=
  if isApiErrorResponse error then
    match error with
    | JsApiError code msg => Normal ("API Error: " ++ code ++ " - " ++ msg)
    | _ => Throw (TypeError_read "error")
    end
  else
    match error with
    | JsError name msg => Normal ("JavaScript Error: " ++ name ++ " - " ++ msg)
    | JsUndefined => Throw (TypeError_read "name")
    | _ => Normal "JavaScript Error: undefined - undefined"
    end.

(** JavaScript truthiness, for [error && { ... }] and [message || ...]. *)
Definition truthy (v : JsValue) : bool :=
  match v with
  | JsUndefined => false
  | JsString s => negb (String.eqb s "")
  | _ => true
  end.

Definition outputLog (this : ErrorLogger) (logEntry : LogEntry) : Log unit :=
  ser <- eval (match error logEntry with
               | Some e =>
                   if truthy e then
                     match serializeError this e with
                     | Normal s => Normal (Some s)
                     | Throw t => Throw t
                     end
                   else Normal None
               | None => Normal None
               end) ;;
  let logData := mkLogData (level logEntry) (message logEntry)
                           (classification logEntry) ser in
  effect (fun out => (out ++ [Console (level logEntry) logData])%list).

Definition sendToMonitoringService (logEntry : LogEntry) : Log unit :=
  effect (fun out => (out ++ [Monitoring (level logEntry) (message logEntry)])%list).

Definition logError (this : ErrorLogger) (error : JsValue)
           (message : option string) : Log unit :=
  classification <- eval (classifyError error) ;;
  let level := getLogLevel classification in
  msg <- eval (match message with
               | Some m => if String.eqb m "" then getDefaultMessage error
                           else Normal m
               | None => getDefaultMessage error
               end) ;;
  let logEntry := mkLogEntry level msg (Some error) (Some classification) in
  outputLog this logEntry ;;;
  if (negb (isDevelopment this) && LogLevel_eqb level ERROR)%bool then
    sendToMonitoringService logEntry
  else ret tt.

Definition logWarning (this : ErrorLogger) (message : string) : Log unit :=
  outputLog this (mkLogEntry WARN message None None).

Definition logInfo (this : ErrorLogger) (message : string) : Log unit :=
  outputLog this (mkLogEntry INFO message None None).

End ErrorLogger.
Export ErrorLogger.

(* ================================================================== *)
(** ** [packages/utils/src/error/retry.ts] *)

Module Retry.

(** [calculateDelay]; [Math_pow] is the engine's [Math.pow] and [rnd] the
    value [Math.random()] returns. *)
Definition calculateDelay (Math_pow : number -> number -> number)
           (rnd attempt baseDelay maxDelay backoffMultiplier : number)
  : number :=
  let delay := mul baseDelay (Math_pow backoffMultiplier (sub attempt one)) in
  let jitter := mul (mul rnd tenth) delay in
  Math_min (add delay jitter) maxDelay.

(** The call [calculateDelay(...)] as a completion: the body is two [const]
    declarations and a [return] of arithmetic on numbers, none of which can
    throw. *)
Definition calculateDelay_call (Math_pow : number -> number -> number)
           (rnd attempt baseDelay maxDelay backoffMultiplier : number)
  : Completion number :=
  Normal (calculateDelay Math_pow rnd attempt baseDelay maxDelay
                         backoffMultiplier).

Definition DEFAULT_retryableErrors : list ErrorCode :=
  [RATE_LIMIT_EXCEEDED; SERVICE_UNAVAILABLE; EXTERNAL_SERVICE_ERROR;
   DATABASE_ERROR].

(** [isRetryableError]; [None] is an omitted (undefined) second argument,
    which takes the default. *)
Definition isRetryableError (error : JsValue)
           (retryableErrors0 : option (list ErrorCode)) : Completion bool :=
  let retryableErrors :=
    match retryableErrors0 with
    | Some l => l
    | None => DEFAULT_retryableErrors
    end in
  if isApiErrorResponse error then
    match error with
    | JsApiError code _ => Normal (array_includes retryableErrors code)
    | _ => Throw (TypeError_read "code")
    end
  else
    match classifyError error with
    | Normal classification => Normal (isRetryable classification)
    | Throw t => Throw t
    end.

Section WithRetry.

(** [S]: the state the retried operation and the callbacks live in;
    [T]: the operation's result type. *)
Variables S T : Type.

(** The module-level [errorLogger]. *)
Variable errorLogger : ErrorLogger.

Record RetryOptions : Type := mkRetryOptions {
  maxRetries : Z;
  baseDelay : number;
  maxDelay : number;
  backoffMultiplier : number;
  retryableErrors : option (list ErrorCode);
  onRetry : option (Z -> JsValue -> S -> S);
  onMaxRetriesReached : option (JsValue -> S -> S)
}.

(** [Partial<RetryOptions>] *)
Record PartialRetryOptions : Type := mkPartial {
  p_maxRetries : option Z;
  p_baseDelay : option number;
  p_maxDelay : option number;
  p_backoffMultiplier : option number;
  p_retryableErrors : option (list ErrorCode);
  p_onRetry : option (Z -> JsValue -> S -> S);
  p_onMaxRetriesReached : option (JsValue -> S -> S)
}.

Definition DEFAULT_RETRY_OPTIONS : RetryOptions :=
  {| maxRetries := 3;
     baseDelay := of_Z 1000;
     maxDelay := of_Z 30000;
     backoffMultiplier := of_Z 2;
     retryableErrors := Some DEFAULT_retryableErrors;
     onRetry := None;
     onMaxRetriesReached := None |}.

Definition or_default {A} (o : option A) (d : A) : A :=
  match o with Some a => a | None => d end.

Definition or_else {A} (o d : option A) : option A :=
  match o with Some a => Some a | None => d end.

(** [{ ...DEFAULT_RETRY_OPTIONS, ...options }] *)
Definition merge (d : RetryOptions) (options : PartialRetryOptions)
  : RetryOptions :=
  {| maxRetries := or_default (p_maxRetries options) (maxRetries d);
     baseDelay := or_default (p_baseDelay options) (baseDelay d);
     maxDelay := or_default (p_maxDelay options) (maxDelay d);
     backoffMultiplier :=
       or_default (p_backoffMultiplier options) (backoffMultiplier d);
     retryableErrors :=
       or_else (p_retryableErrors options) (retryableErrors d);
     onRetry := or_else (p_onRetry options) (onRetry d);
     onMaxRetriesReached :=
       or_else (p_onMaxRetriesReached options) (onMaxRetriesReached d) |}.

(** Everything a call of [withRetry] touches. *)
Record World : Type := mkWorld {
  app : S;                 (* state of the operation and the callbacks *)
  outcomes : list (Completion T);
                           (* one entry per invocation of [fn], oldest first *)
  Math_pow : number -> number -> number;
                           (* the engine's [Math.pow] *)
  random : nat -> number;  (* the successive values of [Math.random()] *)
  draws : nat;             (* how many of them have been consumed *)
  timers : list number;    (* the delays slept, oldest first *)
  console : list Output    (* what the logger wrote, oldest first *)
}.

(** A retried operation: [() => Promise<T>]. *)
Definition Operation : Type := S -> Completion T * S.

(** [await fn()] *)
Definition invoke (fn : Operation) : M World T :=
  fun w =>
    let (r, s') := fn (app w) in
    (r, mkWorld s' (outcomes w ++ [r]) (Math_pow w) (random w) (draws w)
                (timers w) (console w)).

(** A callback supplied by the caller; it acts on the caller's state and is
    taken to return normally. *)
Definition callback (f : S -> S) : M World unit :=
  effect (fun w => mkWorld (f (app w)) (outcomes w) (Math_pow w) (random w)
                           (draws w)
                           (timers w) (console w)).

(** A call into [errorLogger]. *)
Definition logging {A} (l : Log A) : M World A :=
  fun w =>
    let (r, out) := l (console w) in
    (r, mkWorld (app w) (outcomes w) (Math_pow w) (random w) (draws w)
                (timers w) out).

(** [Math.random()] *)
Definition Math_random : M World number :=
  fun w => (Normal (random w (draws w)),
            mkWorld (app w) (outcomes w) (Math_pow w) (random w)
                    (Datatypes.S (draws w))
                    (timers w) (console w)).

(** A call of [calculateDelay] in this world: it draws one random number
    and uses the world's [Math.pow]. *)
Definition calculateDelay_here
           (attempt baseDelay maxDelay backoffMultiplier : number)
  : M World number :=
  fun w =>
    bind Math_random
      (fun rnd => ret (calculateDelay (Math_pow w) rnd attempt baseDelay
                         maxDelay backoffMultiplier)) w.

(** [await delay(ms)] *)
Definition delay (ms : number) : M World unit :=
  effect (fun w => mkWorld (app w) (outcomes w) (Math_pow w) (random w)
                           (draws w)
                           (timers w ++ [ms]) (console w)).

(** The body of [try]: its normal completion is the [return result]. *)
Definition try_block (fn : Operation) (attempt : Z) : M World T :=
  result <- invoke fn ;;
  (if 1 <? attempt then
     logging (logInfo errorLogger
       ("Function succeeded after " ++ string_of_Z (attempt - 1)
        ++ " retries"))
   else ret tt) ;;;
  ret result.

(** The body of [catch (error)]: a [Throw] leaves [withRetry], a normal
    completion goes on to the next iteration. *)
Definition catch_block (config : RetryOptions) (attempt : Z)
           (lastError : JsValue) : M World unit :=
  if maxRetries config <? attempt then
    match onMaxRetriesReached config with
    | Some f => callback (f lastError)
    | None => ret tt
    end ;;;
    logging (logError errorLogger lastError
      (Some ("Function failed after " ++ string_of_Z (maxRetries config)
             ++ " retries"))) ;;;
    throw lastError
  else
    retryable <- eval (isRetryableError lastError (retryableErrors config)) ;;
    if negb retryable then
      logging (logError errorLogger lastError
                 (Some "Non-retryable error encountered")) ;;;
      throw lastError
    else
      match onRetry config with
      | Some f => callback (f attempt lastError)
      | None => ret tt
      end ;;;
      delayMs <- calculateDelay_here (of_Z attempt) (baseDelay config)
                   (maxDelay config) (backoffMultiplier config) ;;
      logging (logWarning errorLogger
        ("Retrying after error (attempt " ++ string_of_Z attempt ++ "/"
         ++ string_of_Z (maxRetries config) ++ ")")) ;;;
      delay delayMs.

(** The [for] loop, from the test of its condition on.  [lastError] is
    [None] while the variable is unassigned. *)
Fixpoint withRetry_loop (fuel : nat) (config : RetryOptions)
         (fn : Operation) (attempt : Z) (lastError : option JsValue)
         (w : World) : option (Completion T * World) :=
  if attempt <=? maxRetries config + 1 then
    match fuel with
    | O => None
    | Datatypes.S fuel' =>
        match try_block fn attempt w with
        | (Normal result, w1) => Some (Normal result, w1)
        | (Throw error, w1) =>
            match catch_block config attempt error w1 with
            | (Throw e, w2) => Some (Throw e, w2)
            | (Normal _, w2) =>
                withRetry_loop fuel' config fn (attempt + 1) (Some error) w2
            end
        end
    end
  else
    Some (Throw (or_default lastError JsUndefined), w).

Definition withRetry (fn : Operation) (options : PartialRetryOptions)
           (w : World) : option (Completion T * World) :=
  let config := merge DEFAULT_RETRY_OPTIONS options in
  withRetry_loop (Z.to_nat (maxRetries config + 1)) config fn 1 None w.

(** *** Vocabulary of the properties *)

(** A statement that records no invocation. *)
Definition quiet {A} (m : M World A) : Prop :=
  forall w, outcomes (snd (m w)) = outcomes w.

(** What "fails on every invocation with a retryable error" means for a
    policy: in every state the operation rejects, with an error on which
    [isRetryableError] answers [true]. *)
Definition always_fails_retryably (config : RetryOptions) (fn : Operation)
  : Prop :=
  forall s, exists e s',
    fn s = (Throw e, s')
    /\ isRetryableError e (retryableErrors config) = Normal true.

(** The list consulted for a policy: its own, or the default one. *)
Definition policy_codes (config : RetryOptions) : list ErrorCode :=
  or_default (retryableErrors config) DEFAULT_retryableErrors.

End WithRetry.

End Retry.
Export Retry.

(* ================================================================== *)
(** ** [packages/database/src/utils/transactions.ts] *)

Module Transactions.

Inductive IsolationLevel : Type :=
| ReadUncommitted | ReadCommitted | RepeatableRead | Serializable.

Record TransactionOptions : Type := mkTransactionOptions {
  timeout : option Z;
  isolationLevel : option IsolationLevel
}.

Section WithClient.

(** [Db]: the state behind the Prisma client; [T]: the result type. *)
Variables Db T : Type.

(** [TransactionFn<T>]: the body run against the transaction client. *)
Definition TransactionFn : Type := Db -> Completion T * Db.

(** The one method of [PrismaClient] the module uses:
    [$transaction(fn, { timeout, isolationLevel })]. *)
Record PrismaClient : Type := mkPrismaClient {
  dollar_transaction :
    TransactionFn -> Z -> option IsolationLevel -> Db -> Completion T * Db
}.

Record World : Type := mkWorld {
  db : Db;
  results : list (Completion T);
                       (* one entry per call of [client.$transaction] *)
  sleeps : list Z      (* the [setTimeout] delays awaited, oldest first *)
}.

Definition withTransaction (client : PrismaClient) (fn : TransactionFn)
           (options : TransactionOptions) : M World T :=
  fun w =>
    let timeout := match timeout options with Some t => t | None => 5000 end in
    let (r, db') :=
      dollar_transaction client fn timeout (isolationLevel options) (db w) in
    (r, mkWorld db' (results w ++ [r]) (sleeps w)).

(** [await new Promise(resolve => setTimeout(resolve, delay))] *)
Definition sleep (ms : Z) : M World unit :=
  effect (fun w => mkWorld (db w) (results w) (sleeps w ++ [ms])).

(** The [isRetryable] of the [catch] block. *)
Definition isRetryable (error : JsValue) : bool :=
  instanceofError error &&
  match error with
  | JsError _ message =>
      includes message "serialization_failure"
      || includes message "deadlock_detected"
      || includes message "could not serialize access"
  | _ => false
  end.

(** The [for] loop of [retryTransaction], from the test of its condition
    on; [lastError] is [None] while the variable is unassigned. *)
Fixpoint retryTransaction_loop (fuel : nat) (client : PrismaClient)
         (fn : TransactionFn) (maxRetries : Z) (options : TransactionOptions)
         (attempt : Z) (lastError : option JsValue) (w : World)
  : option (Completion T * World) :=
  if attempt <=? maxRetries then
    match fuel with
    | O => None
    | S fuel' =>
        match withTransaction client fn options w with
        | (Normal result, w1) => Some (Normal result, w1)
        | (Throw error, w1) =>
            if negb (isRetryable error) || (attempt =? maxRetries) then
              Some (Throw error, w1)
            else
              let delay := 2 ^ attempt * 100 in
              match sleep delay w1 with
              | (_, w2) =>
                  retryTransaction_loop fuel' client fn maxRetries options
                    (attempt + 1) (Some error) w2
              end
        end
    end
  else
    Some (Throw (match lastError with
                 | Some e => e
                 | None => JsUndefined
                 end), w).

(** [retryTransaction(client, fn, maxRetries = 3, options = {})] *)
Definition retryTransaction (client : PrismaClient) (fn : TransactionFn)
           (maxRetries0 : option Z) (options : TransactionOptions)
           (w : World) : option (Completion T * World) :=
  let maxRetries := match maxRetries0 with Some n => n | None => 3 end in
  retryTransaction_loop (Z.to_nat maxRetries) client fn maxRetries options
    1 None w.

(** What "fails on every invocation with a retryable storage signature"
    means: in every world the submission rejects with an error that
    [isRetryable] accepts. *)
Definition always_fails_with_signature (client : PrismaClient)
           (fn : TransactionFn) (options : TransactionOptions) : Prop :=
  forall w : World, exists e w1,
    withTransaction client fn options w = (Throw e, w1)
    /\ isRetryable e = true.

End WithClient.

End Transactions.

(* ================================================================== *)
(** ** Further functions of the same files *)

(** *** [packages/types/src/api/error.ts]: the status table *)

Module ErrorStatus.

(** The members of [enum ErrorCode], in declaration order. *)
Definition ErrorCode_values : list ErrorCode :=
  [VALIDATION_ERROR; INVALID_REQUEST; UNAUTHORIZED; FORBIDDEN; NOT_FOUND;
   CONFLICT; RATE_LIMIT_EXCEEDED; TOKEN_EXPIRED; INVALID_TOKEN; TOKEN_MISSING;
   BUSINESS_RULE_VIOLATION; RESOURCE_NOT_AVAILABLE; OPERATION_NOT_ALLOWED;
   INTERNAL_ERROR; SERVICE_UNAVAILABLE; DATABASE_ERROR; EXTERNAL_SERVICE_ERROR].

(** [code] is a member of the enum (the declared type of a code). *)
Definition is_ErrorCode (code : ErrorCode) : bool :=
  array_includes ErrorCode_values code.

(** [error] is of the declared type [Error | ApiErrorResponse]: an [Error]
    instance, or a structured response whose code is an enum member. *)
Definition of_declared_type (error : JsValue) : bool :=
  match error with
  | JsError _ _ => true
  | JsApiError code _ => is_ErrorCode code
  | _ => false
  end.

(** Reading the own property [key] of an object literal; [None] is
    [undefined].  Property names inherited from [Object.prototype] are not
    members of [ErrorCode]; the tables are only read at enum members. *)
Fixpoint lookup {A : Type} (key : string) (table : list (string * A))
  : option A :=
  match table with
  | [] => None
  | (k, v) :: rest => if String.eqb key k then Some v else lookup key rest
  end.

Definition ERROR_STATUS_MAP : list (ErrorCode * Z) :=
  [(VALIDATION_ERROR, 400); (INVALID_REQUEST, 400);
   (BUSINESS_RULE_VIOLATION, 400);
   (UNAUTHORIZED, 401); (TOKEN_EXPIRED, 401); (INVALID_TOKEN, 401);
   (TOKEN_MISSING, 401);
   (FORBIDDEN, 403); (OPERATION_NOT_ALLOWED, 403);
   (NOT_FOUND, 404); (RESOURCE_NOT_AVAILABLE, 404);
   (CONFLICT, 409);
   (RATE_LIMIT_EXCEEDED, 429);
   (INTERNAL_ERROR, 500); (DATABASE_ERROR, 500);
   (SERVICE_UNAVAILABLE, 503); (EXTERNAL_SERVICE_ERROR, 503)].

(** [ERROR_STATUS_MAP[errorCode] || 500] *)
Definition getStatusCodeFromErrorCode (errorCode : ErrorCode) : Z :=
  match lookup errorCode ERROR_STATUS_MAP with
  | Some n => if n =? 0 then 500 else n
  | None => 500
  end.

End ErrorStatus.
Export ErrorStatus.

(** *** [error-handler.ts]: the user-facing messages *)

Module UserMessages.

Inductive Locale : Type := ja | en.

(** The [messages] table of [getUserFriendlyApiErrorResponseMessage]. *)
Definition messages (locale : Locale) : list (ErrorCode * string) :=
  match locale with
  | ja =>
      [(VALIDATION_ERROR, "入力内容に誤りがあります。確認してください。");
       (INVALID_REQUEST, "リクエストが正しくありません。");
       (UNAUTHORIZED, "ログインが必要です。");
       (TOKEN_EXPIRED, "セッションが期限切れです。再度ログインしてください。");
       (INVALID_TOKEN, "認証情報が無効です。再度ログインしてください。");
       (TOKEN_MISSING, "ログインが必要です。");
       (FORBIDDEN, "この操作を実行する権限がありません。");
       (OPERATION_NOT_ALLOWED, "この操作は許可されていません。");
       (NOT_FOUND, "指定されたデータが見つかりません。");
       (RESOURCE_NOT_AVAILABLE, "リソースが利用できません。");
       (CONFLICT, "データが既に存在するか、競合が発生しました。");
       (RATE_LIMIT_EXCEEDED,
        "リクエストが多すぎます。しばらくしてから再試行してください。");
       (SERVICE_UNAVAILABLE, "サービスが一時的に利用できません。");
       (EXTERNAL_SERVICE_ERROR, "外部サービスでエラーが発生しました。");
       (DATABASE_ERROR, "データベースエラーが発生しました。");
       (INTERNAL_ERROR, "システムエラーが発生しました。");
       (BUSINESS_RULE_VIOLATION, "ビジネスルールに違反しています。")]
  | en =>
      [(VALIDATION_ERROR, "Please check your input data.");
       (INVALID_REQUEST, "Invalid request.");
       (UNAUTHORIZED, "Login required.");
       (TOKEN_EXPIRED, "Session expired. Please login again.");
       (INVALID_TOKEN, "Invalid credentials. Please login again.");
       (TOKEN_MISSING, "Login required.");
       (FORBIDDEN, "You do not have permission for this operation.");
       (OPERATION_NOT_ALLOWED, "This operation is not allowed.");
       (NOT_FOUND, "The requested data was not found.");
       (RESOURCE_NOT_AVAILABLE, "Resource is not available.");
       (CONFLICT, "Data already exists or conflict occurred.");
       (RATE_LIMIT_EXCEEDED, "Too many requests. Please try again later.");
       (SERVICE_UNAVAILABLE, "Service is temporarily unavailable.");
       (EXTERNAL_SERVICE_ERROR, "External service error occurred.");
       (DATABASE_ERROR, "Database error occurred.");
       (INTERNAL_ERROR, "System error occurred.");
       (BUSINESS_RULE_VIOLATION, "Business rule violation.")]
  end.

(** [messages[locale][code] || messages[locale][ErrorCode.INTERNAL_ERROR]];
    a result of [None] is [undefined]. *)
Definition getUserFriendlyApiErrorResponseMessage (code : ErrorCode)
           (locale : Locale) : option string :=
  match lookup code (messages locale) with
  | Some m => if String.eqb m "" then lookup INTERNAL_ERROR (messages locale)
              else Some m
  | None => lookup INTERNAL_ERROR (messages locale)
  end.

Definition getUserFriendlyJavaScriptErrorMessage
           (classification : ErrorClassification) (locale : Locale) : string :=
  match category classification with
  | network =>
      match locale with
      | ja => "ネットワークエラーが発生しました。接続を確認してください。"
      | en => "Network error occurred. Please check your connection."
      end
  | user =>
      match locale with
      | ja => "入力内容を確認してください。"
      | en => "Please check your input."
      end
  | _ =>
      match locale with
      | ja => "エラーが発生しました。しばらくしてから再試行してください。"
      | en => "An error occurred. Please try again later."
      end
  end.

(** [getUserFriendlyMessage(error, locale = 'ja')]; [None] for the locale is
    an omitted argument.  The error is classified first, whatever it is. *)
Definition getUserFriendlyMessage (error : JsValue) (locale0 : option Locale)
  : Completion (option string) :=
  let locale := match locale0 with Some l => l | None => ja end in
  match classifyError error with
  | Throw t => Throw t
  | Normal classification =>
      if isApiErrorResponse error then
        match error with
        | JsApiError code _ =>
            Normal (getUserFriendlyApiErrorResponseMessage code locale)
        | _ => Throw (TypeError_read "code")
        end
      else
        Normal (Some (getUserFriendlyJavaScriptErrorMessage classification
                        locale))
  end.

End UserMessages.
Export UserMessages.

(** *** [retry.ts]: the per-error strategies *)

Module RetryStrategies.

Section Strategies.

Variable S : Type.

(** An options object that sets the four numeric fields. *)
Definition strategy (maxRetries : Z)
           (baseDelay maxDelay backoffMultiplier : number)
  : Retry.PartialRetryOptions S :=
  Retry.mkPartial (Some maxRetries) (Some baseDelay) (Some maxDelay)
                  (Some backoffMultiplier) None None None.

(** [{}] *)
Definition no_options : Retry.PartialRetryOptions S :=
  Retry.mkPartial None None None None None None None.

Definition RETRY_STRATEGIES : list (ErrorCode * Retry.PartialRetryOptions S) :=
  [(RATE_LIMIT_EXCEEDED, strategy 5 (of_Z 5000) (of_Z 60000) (of_Z 2));
   (SERVICE_UNAVAILABLE, strategy 3 (of_Z 2000) (of_Z 20000) (of_Z 2));
   (EXTERNAL_SERVICE_ERROR,
    strategy 3 (of_Z 1000) (of_Z 15000) one_and_a_half);
   (DATABASE_ERROR, strategy 2 (of_Z 500) (of_Z 5000) (of_Z 2))].

Definition getRetryOptionsForError (error : JsValue)
  : Completion (Retry.PartialRetryOptions S) :=
  if isApiErrorResponse error then
    match error with
    | JsApiError code _ =>
        Normal (match lookup code RETRY_STRATEGIES with
                | Some o => o
                | None => no_options
                end)
    | _ => Throw (TypeError_read "code")
    end
  else
    match classifyError error with
    | Throw t => Throw t
    | Normal classification =>
        match category classification with
        | network =>
            Normal (strategy 3 (of_Z 1000) (of_Z 10000) one_and_a_half)
        | _ => Normal no_options
        end
    end.

(** A merged policy with at least one retry, a positive base delay not
    above the cap and a multiplier of at least one. *)
Definition well_formed (config : Retry.RetryOptions S) : Prop :=
  1 <= Retry.maxRetries config
  /\ ltb zero (Retry.baseDelay config) = true
  /\ leb (Retry.baseDelay config) (Retry.maxDelay config) = true
  /\ leb one (Retry.backoffMultiplier config) = true.

End Strategies.

End RetryStrategies.
Export RetryStrategies.

(** *** Vocabulary for the classifier *)

(** [s] holds ASCII characters only (codes below 128); on such strings
    [toLowerCase] changes nothing but the letters A to Z. *)
Fixpoint ascii_only (s : string) : bool :=
  match s with
  | EmptyString => true
  | String c rest => (Nat.ltb (nat_of_ascii c) 128 && ascii_only rest)%bool
  end.

(** *** Vocabulary for the transaction retry *)

(** The delays [retryTransaction] sleeps when it retries [n] times starting
    at [attempt]: [2^attempt * 100], [2^(attempt+1) * 100], ... *)
Definition backoff_schedule (attempt : Z) (n : nat) : list Z :=
  map (fun i => 2 ^ (attempt + Z.of_nat i) * 100) (seq 0 n).

(* ================================================================== *)
(** ** Concrete operations, policies and clients *)

Module Examples.

(** An operation that rejects with [e] on every invocation. *)
Definition op_always_throws (e : JsValue) : Retry.Operation unit unit :=
  fun s => (Throw e, s).

(** A policy that sets only [maxRetries] and [retryableErrors]. *)
Definition policy (maxRetries : option Z) (codes : option (list ErrorCode))
  : Retry.PartialRetryOptions unit :=
  Retry.mkPartial maxRetries None None None codes None None.

(** A fresh world: nothing invoked, nothing logged, [Math.random()] = 0,
    [Math.pow] by repeated multiplication. *)
Definition world0 : Retry.World unit unit :=
  Retry.mkWorld tt [] pow_by_multiplication (fun _ => zero) 0 [] [].

Definition production_logger : ErrorLogger := mkErrorLogger false.

Definition rate_limited : JsValue :=
  JsApiError RATE_LIMIT_EXCEEDED "Too many requests".

Definition network_timeout : JsValue := JsError "Error" "network timeout".

Definition invalid_data : JsValue := JsError "Error" "Invalid data".

Definition deadlock : JsValue := JsError "Error" "deadlock_detected".

(** A client whose [$transaction] rejects with [e] every time. *)
Definition client_always_throws (e : JsValue)
  : Transactions.PrismaClient unit unit :=
  Transactions.mkPrismaClient (fun _ _ _ d => (Throw e, d)).

Definition tx_noop : Transactions.TransactionFn unit unit :=
  fun d => (Normal tt, d).

Definition tx_options0 : Transactions.TransactionOptions :=
  Transactions.mkTransactionOptions None None.

Definition tx_world0 : Transactions.World unit unit :=
  Transactions.mkWorld tt [] [].

End Examples.

Module MoreExamples.

(** State: how many failures are still to come.  The operation times out
    while some are left, then fulfils with 42. *)
Definition op_fails_then_succeeds : Retry.Operation nat Z :=
  fun left =>
    match left with
    | O => (Normal 42, O)
    | Datatypes.S n => (Throw Examples.network_timeout, n)
    end.

(** State: the number of invocations so far.  The first invocation fails
    with a storage error, every later one with a conflict. *)
Definition op_database_then_conflict : Retry.Operation nat Z :=
  fun n =>
    match n with
    | O => (Throw (JsApiError DATABASE_ERROR "connection lost"), Datatypes.S n)
    | _ => (Throw (JsApiError CONFLICT "duplicate"), Datatypes.S n)
    end.

Definition world_with (failures : nat) : Retry.World nat Z :=
  Retry.mkWorld failures [] pow_by_multiplication (fun _ => zero) 0 [] [].

Definition no_policy : Retry.PartialRetryOptions nat :=
  Retry.mkPartial None None None None None None None.

(** A client that deadlocks while failures are left, then commits. *)
Definition client_deadlocks_then_commits : Transactions.PrismaClient nat Z :=
  Transactions.mkPrismaClient
    (fun _ _ _ left =>
       match left with
       | O => (Normal 7, O)
       | Datatypes.S n => (Throw Examples.deadlock, n)
       end).

Definition tx_fn : Transactions.TransactionFn nat Z :=
  fun d => (Normal 7, d).

Definition tx_world_with (failures : nat) : Transactions.World nat Z :=
  Transactions.mkWorld failures [] [].

End MoreExamples.

(* ================================================================== *)
(** * Properties *)

(** ** The classifier *)

(** [classifyError] is defined on everything of its declared type. *)
Lemma classifyError_total_on_declared_type :
  forall error,
    (instanceofError error || isApiErrorResponse error)%bool = true ->
    exists c, classifyError error = Normal c.
Proof.
  intros [ | s | name message | code message ] H; try discriminate H.
  - exists (classifyJavaScriptError name message). reflexivity.
  - exists (classifyApiErrorResponse code). reflexivity.
Qed.

Ltac split_ifs :=
  repeat match goal with
         | |- context [if ?b then _ else _] => destruct b
         end.

Lemma classifyApiErrorResponse_pairing :
  forall code,
    isOperational (classifyApiErrorResponse code) = false ->
    severity (classifyApiErrorResponse code) = critical.
Proof.
  intro code. unfold classifyApiErrorResponse.
  split_ifs; simpl; intro H; solve [reflexivity | discriminate H].
Qed.

Lemma classifyJavaScriptError_pairing :
  forall name message,
    isOperational (classifyJavaScriptError name message) = false ->
    severity (classifyJavaScriptError name message) = critical.
Proof.
  intros name message. unfold classifyJavaScriptError.
  split_ifs; simpl; intro H; solve [reflexivity | discriminate H].
Qed.

(** C2.  Whatever [classifyError] returns, on a structured API error response
    or on a generic exception, a classification that is not operational has
    severity [critical]. *)
Theorem classifyError_pairing :
  forall error c,
    classifyError error = Normal c ->
    isOperational c = false ->
    severity c = critical.
Proof.
  intros [ | s | name message | code message ] c H; simpl in H;
    try discriminate H.
  - injection H as <-. apply classifyJavaScriptError_pairing.
  - injection H as <-. apply classifyApiErrorResponse_pairing.
Qed.

Lemma classifyError_pairing_witness :
  classifyError (JsError "TypeError" "x is not a function")
    = Normal (mkClassification false false critical system)
  /\ severity (mkClassification false false critical system) = critical.
Proof.
  split.
  - reflexivity.
  - apply (@classifyError_pairing (JsError "TypeError" "x is not a function")).
    + reflexivity.
    + reflexivity.
Defined.

(** ** The back-off delay *)

Section Delay.

(** *** Comparisons and [Math.min] on doubles *)

Lemma compare_refl :
  forall x : number, isNaN x = false -> SFcompare x x = Some Eq.
Proof.
  intros [[] | [] | | [] m e] H; try reflexivity; try discriminate H;
    simpl; rewrite Z.compare_refl, Pos.compare_cont_refl; reflexivity.
Qed.

Lemma leb_refl : forall x : number, isNaN x = false -> leb x x = true.
Proof.
  intros x H. unfold leb, SFleb. now rewrite compare_refl.
Qed.


Lemma ltb_leb : forall x y : number, ltb x y = true -> leb x y = true.
Proof.
  intros x y. unfold ltb, leb, SFltb, SFleb.
  destruct (SFcompare x y) as [[ | | ] | ]; intro H;
    solve [reflexivity | discriminate H].
Qed.


Lemma Math_min_NaN :
  forall x y : number, isNaN (Math_min x y) = (isNaN x || isNaN y)%bool.
Proof.
  intros x y. unfold Math_min.
  destruct (isNaN x) eqn:Hx; [reflexivity | ].
  destruct (isNaN y) eqn:Hy; [reflexivity | ]. simpl.
  destruct (ltb x y); [exact Hx | ].
  destruct (ltb y x); [exact Hy | ].
  destruct x as [[] | | | ]; solve [exact Hy | reflexivity].
Qed.


Lemma Math_min_le_r :
  forall x y : number,
    isNaN x = false -> isNaN y = false -> leb (Math_min x y) y = true.
Proof.
  intros x y Hx Hy. unfold Math_min. rewrite Hx, Hy. simpl.
  destruct (ltb x y) eqn:L1; [now apply ltb_leb | ].
  destruct (ltb y x) eqn:L2; [now apply leb_refl | ].
  destruct x as [[] | sx | | sx mx ex]; try (now apply leb_refl).
  destruct y as [sy | [] | | [] my ey];
    solve [reflexivity | discriminate Hy | discriminate L1 | discriminate L2].
Qed.


(** The result is NaN or at most [maxDelay], whatever the arguments and
    whatever [Math.pow] computes. *)
Lemma calculateDelay_le_max :
  forall pow rnd attempt base max mult,
    isNaN (calculateDelay pow rnd attempt base max mult) = true
    \/ leb (calculateDelay pow rnd attempt base max mult) max = true.
Proof.
  intros pow rnd attempt base max mult. unfold calculateDelay.
  set (sum := add _ _).
  destruct (isNaN sum) eqn:Hs;
    [left; rewrite Math_min_NaN, Hs; reflexivity | ].
  destruct (isNaN max) eqn:Hm;
    [left; rewrite Math_min_NaN, Hm; apply orb_true_r | ].
  right. now apply Math_min_le_r.
Qed.




(** Inside the claim's hypotheses the result need not be a number at all:
    at attempt 1026 the power overflows, [delay] is infinite, the jitter
    [0 * 0.1 * Infinity] is NaN, and so is the result. *)
Lemma calculateDelay_NaN_on_overflow :
  calculateDelay pow_by_multiplication zero (of_Z 1026) (of_Z 1000)
                 (of_Z 30000) (of_Z 2) = S754_nan.
Proof. vm_compute. reflexivity. Qed.

(** C8, as the code has it.  [calculateDelay] validates nothing: for all
    arguments, [base < 0] and [multiplier < 1] included, the call returns a
    number and does not throw; that number is NaN or at most [max]. *)
Theorem calculateDelay_never_fails :
  forall pow rnd attempt base max mult,
    exists d,
      calculateDelay_call pow rnd attempt base max mult = Normal d
      /\ (isNaN d = true \/ leb d max = true).
Proof.
  intros pow rnd attempt base max mult.
  exists (calculateDelay pow rnd attempt base max mult).
  split; [reflexivity | apply calculateDelay_le_max].
Qed.

(** C8 as stated fails: a negative base is accepted and a (negative) number
    comes back. *)
Lemma calculateDelay_accepts_negative_base :
  ltb (of_Z (-5)) zero = true
  /\ (exists d,
         calculateDelay_call pow_by_multiplication (of_dyadic 1 (-1)) one
                             (of_Z (-5)) (of_Z 100) (of_Z 2) = Normal d
         /\ ltb d zero = true)
  /\ (forall e,
         calculateDelay_call pow_by_multiplication (of_dyadic 1 (-1)) one
                             (of_Z (-5)) (of_Z 100) (of_Z 2) <> Throw e).
Proof.
  split; [reflexivity | ].
  split; [eexists; split; [reflexivity | vm_compute; reflexivity] | ].
  intros e H. discriminate H.
Qed.

(** The same for a multiplier below one. *)
Lemma calculateDelay_accepts_small_multiplier :
  ltb (of_dyadic 1 (-1)) one = true
  /\ calculateDelay_call pow_by_multiplication zero (of_Z 3) (of_Z 1000)
                         (of_Z 30000) (of_dyadic 1 (-1))
     = Normal (of_Z 250).
Proof.
  split; vm_compute; reflexivity.
Qed.

End Delay.

(** ** The logger *)

Lemma outputLog_without_error :
  forall lg lvl msg out,
    outputLog lg (mkLogEntry lvl msg None None) out
    = (Normal tt, (out ++ [Console lvl (mkLogData lvl msg None None)])%list).
Proof. reflexivity. Qed.

Lemma logWarning_returns :
  forall lg msg out, exists out', logWarning lg msg out = (Normal tt, out').
Proof. intros. eexists. apply outputLog_without_error. Qed.

Lemma logInfo_returns :
  forall lg msg out, exists out', logInfo lg msg out = (Normal tt, out').
Proof. intros. eexists. apply outputLog_without_error. Qed.

(** Once the error classifies, [logError] runs to its end. *)
Lemma logError_returns_when_classified :
  forall lg error msg out c,
    classifyError error = Normal c ->
    exists out', logError lg error msg out = (Normal tt, out').
Proof.
  intros lg [ | s | name message | code message ] msg out c H;
    simpl in H; try discriminate H.
  - unfold logError, bind, eval. simpl.
    destruct msg as [m | ]; [destruct (String.eqb m "") | ]; simpl;
      unfold outputLog, bind, eval, effect; simpl;
      destruct (negb (isDevelopment lg) && _)%bool; simpl;
      eexists; reflexivity.
  - unfold logError, bind, eval. simpl.
    destruct msg as [m | ]; [destruct (String.eqb m "") | ]; simpl;
      unfold outputLog, bind, eval, effect; simpl;
      destruct (negb (isDevelopment lg) && _)%bool; simpl;
      eexists; reflexivity.
Qed.

(** When classification throws, [logError] throws the same value and writes
    nothing. *)
Lemma logError_propagates_classification_failure :
  forall lg error msg out t,
    classifyError error = Throw t ->
    logError lg error msg out = (Throw t, out).
Proof.
  intros lg error msg out t H. unfold logError, bind, eval. rewrite H.
  reflexivity.
Qed.

(** C9, as the code has it.  For every error value of the declared type (an
    [Error] instance or a structured API error response), every message and
    every state of the logger, [logError] returns normally and writes at
    least one record. *)
Theorem logError_returns_on_declared_type :
  forall lg error msg out,
    (instanceofError error || isApiErrorResponse error)%bool = true ->
    exists out',
      logError lg error msg out = (Normal tt, out')
      /\ (length out < length out')%nat.
Proof.
  intros lg [ | s | name message | code message ] msg out H;
    try discriminate H.
  - unfold logError, bind, eval. simpl.
    destruct msg as [m | ]; [destruct (String.eqb m "") | ]; simpl;
      unfold outputLog, bind, eval, effect; simpl;
      destruct (negb (isDevelopment lg) && _)%bool; simpl;
      eexists; (split; [reflexivity | ]);
      repeat rewrite length_app; simpl; lia.
  - unfold logError, bind, eval. simpl.
    destruct msg as [m | ]; [destruct (String.eqb m "") | ]; simpl;
      unfold outputLog, bind, eval, effect; simpl;
      destruct (negb (isDevelopment lg) && _)%bool; simpl;
      eexists; (split; [reflexivity | ]);
      repeat rewrite length_app; simpl; lia.
Qed.

Lemma logError_returns_on_declared_type_witness :
  exists out',
    logError (mkErrorLogger false) (JsError "Error" "fetch failed")
             (Some "Function failed after 0 retries") []
    = (Normal tt, out')
    /\ (length (@nil Output) < length out')%nat.
Proof.
  apply (@logError_returns_on_declared_type (mkErrorLogger false)
           (JsError "Error" "fetch failed")
           (Some "Function failed after 0 retries") []).
  reflexivity.
Defined.

(** C9 as stated fails: the logger has no guard of its own.  A promise
    rejected with the string "boom" reaches [logError] through the [catch]
    of [withRetry]; classification throws a [TypeError], which [logError]
    lets through, without writing anything. *)
Lemma logError_propagates_TypeError :
  logError (mkErrorLogger false) (JsString "boom")
           (Some "Function failed after 0 retries") []
  = (Throw (TypeError_read "toLowerCase"), []).
Proof. reflexivity. Qed.

(** ** [withRetry] *)

Section WithRetryFacts.

Variables S T : Type.
Variable lg : ErrorLogger.

Local Abbreviation World := (Retry.World S T).
Local Abbreviation Operation := (Retry.Operation S T).
Local Abbreviation RetryOptions := (Retry.RetryOptions S).
Local Abbreviation quiet := (@Retry.quiet S T _).

(** An error on which [isRetryableError] answers also classifies. *)
Lemma isRetryableError_classified :
  forall error codes b,
    isRetryableError error codes = Normal b ->
    exists c, classifyError error = Normal c.
Proof.
  intros [ | s | name message | code message ] codes b H;
    simpl in H; try discriminate H; eexists; reflexivity.
Qed.

(** *** The primitives leave the invocation record alone *)

Lemma callback_spec :
  forall (f : S -> S) (w : World),
  exists w', callback f w = (Normal tt, w') /\ outcomes w' = outcomes w.
Proof. intros. eexists. split; reflexivity. Qed.

Lemma logging_outcomes :
  forall A (l : Log A) (w : World),
    outcomes (snd (logging l w)) = outcomes w.
Proof.
  intros A l w. unfold logging. destruct (l (console w)). reflexivity.
Qed.

Lemma logging_logError_spec :
  forall error msg c (w : World),
    classifyError error = Normal c ->
    exists w',
      logging (logError lg error msg) w = (Normal tt, w')
      /\ outcomes w' = outcomes w.
Proof.
  intros error msg c w H.
  destruct (logError_returns_when_classified lg error msg (console w) H)
    as [out' Hout].
  unfold logging. rewrite Hout. eexists. split; reflexivity.
Qed.

Lemma logging_logWarning_spec :
  forall msg (w : World),
  exists w',
    logging (logWarning lg msg) w = (Normal tt, w')
    /\ outcomes w' = outcomes w.
Proof.
  intros msg w. unfold logging, logWarning.
  rewrite outputLog_without_error. eexists. split; reflexivity.
Qed.

Lemma logging_logInfo_spec :
  forall msg (w : World),
  exists w',
    logging (logInfo lg msg) w = (Normal tt, w')
    /\ outcomes w' = outcomes w /\ app w' = app w.
Proof.
  intros msg w. unfold logging, logInfo.
  rewrite outputLog_without_error. eexists. repeat split; reflexivity.
Qed.


Lemma quiet_bind :
  forall A B (m : M World A) (k : A -> M World B),
    quiet m -> (forall a, quiet (k a)) -> quiet (bind m k).
Proof.
  intros A B m k Hm Hk w. unfold bind.
  specialize (Hm w). destruct (m w) as [[a | e] w1]; simpl in *.
  - rewrite Hk. exact Hm.
  - exact Hm.
Qed.

Lemma quiet_ret : forall A (a : A), quiet (ret a).
Proof. intros A a w. reflexivity. Qed.

Lemma quiet_throw : forall A e, quiet (@throw World A e).
Proof. intros A e w. reflexivity. Qed.

Lemma quiet_eval : forall A (c : Completion A), quiet (eval c).
Proof. intros A c w. reflexivity. Qed.

Lemma quiet_callback : forall f : S -> S, quiet (callback (T:=T) f).
Proof. intros f w. reflexivity. Qed.

Lemma quiet_logging : forall A (l : Log A), quiet (logging l).
Proof. intros A l w. apply logging_outcomes. Qed.

Lemma quiet_Math_random : quiet (@Math_random S T).
Proof. intros w. reflexivity. Qed.

Lemma quiet_delay : forall ms, quiet (@delay S T ms).
Proof. intros ms w. reflexivity. Qed.

Lemma quiet_calculateDelay_here :
  forall attempt base max mult,
    quiet (@calculateDelay_here S T attempt base max mult).
Proof. intros attempt base max mult w. reflexivity. Qed.

Create HintDb quiet.
#[local] Hint Resolve quiet_ret quiet_throw quiet_eval quiet_callback quiet_logging
  quiet_Math_random quiet_delay quiet_calculateDelay_here : quiet.

(** *** One pass through [try] *)

Lemma try_block_failure :
  forall (fn : Operation) attempt (w : World) e s',
    fn (app w) = (Throw e, s') ->
    exists w1,
      try_block lg fn attempt w = (Throw e, w1)
      /\ outcomes w1 = (outcomes w ++ [Throw e])%list
      /\ app w1 = s'.
Proof.
  intros fn attempt w e s' H.
  unfold try_block, bind, invoke. rewrite H.
  eexists. repeat split; reflexivity.
Qed.

Lemma try_block_success :
  forall (fn : Operation) attempt (w : World) v s',
    fn (app w) = (Normal v, s') ->
    exists w1,
      try_block lg fn attempt w = (Normal v, w1)
      /\ outcomes w1 = (outcomes w ++ [Normal v])%list.
Proof.
  intros fn attempt w v s' H.
  unfold try_block, bind, invoke. rewrite H.
  destruct (1 <? attempt).
  - match goal with
    | |- context [logging (logInfo lg ?m) ?w0] =>
        destruct (logging_logInfo_spec m w0) as (w1 & -> & Ho & _)
    end.
    exists w1. split; [reflexivity | exact Ho].
  - eexists. split; reflexivity.
Qed.

(** Every pass through [try] records exactly one invocation. *)
Lemma try_block_outcomes :
  forall (fn : Operation) attempt (w : World),
  exists r,
    outcomes (snd (try_block lg fn attempt w)) = (outcomes w ++ [r])%list.
Proof.
  intros fn attempt w.
  destruct (fn (app w)) as [[v | e] s'] eqn:E.
  - destruct (try_block_success fn attempt w E) as (w1 & -> & Ho).
    exists (Normal v). exact Ho.
  - destruct (try_block_failure fn attempt w E) as (w1 & -> & Ho & _).
    exists (Throw e). exact Ho.
Qed.

(** *** One pass through [catch] *)

Lemma catch_block_exhausted :
  forall (config : RetryOptions) attempt error c (w : World),
    maxRetries config < attempt ->
    classifyError error = Normal c ->
    exists w',
      catch_block lg config attempt error w = (Throw error, w')
      /\ outcomes w' = outcomes w.
Proof.
  intros config attempt error c w Hlt Hc.
  unfold catch_block.
  apply Z.ltb_lt in Hlt. rewrite Hlt.
  unfold bind at 1.
  assert (Hcb : exists w1,
             (match onMaxRetriesReached config with
              | Some f => callback (f error)
              | None => ret tt
              end) w = (Normal tt, w1) /\ outcomes w1 = outcomes w).
  { destruct (onMaxRetriesReached config) as [f | ].
    - apply callback_spec.
    - eexists. split; reflexivity. }
  destruct Hcb as (w1 & -> & Ho1).
  unfold bind.
  match goal with
  | |- context [logging (logError lg error ?m) w1] =>
      destruct (logging_logError_spec error m w1 Hc) as (w2 & -> & Ho2)
  end.
  exists w2. split; [reflexivity | congruence].
Qed.

Lemma catch_block_fail_fast :
  forall (config : RetryOptions) attempt error (w : World),
    attempt <= maxRetries config ->
    isRetryableError error (retryableErrors config) = Normal false ->
    exists w',
      catch_block lg config attempt error w = (Throw error, w')
      /\ outcomes w' = outcomes w.
Proof.
  intros config attempt error w Hle Hr.
  destruct (isRetryableError_classified _ _ Hr) as [c Hc].
  unfold catch_block.
  assert (Hlt : (maxRetries config <? attempt) = false)
    by (apply Z.ltb_ge; exact Hle).
  rewrite Hlt. unfold bind at 1. unfold eval. rewrite Hr. simpl.
  unfold bind.
  match goal with
  | |- context [logging (logError lg error ?m) w] =>
      destruct (logging_logError_spec error m w Hc) as (w2 & -> & Ho2)
  end.
  exists w2. split; [reflexivity | exact Ho2].
Qed.

Lemma catch_block_retry :
  forall (config : RetryOptions) attempt error (w : World),
    attempt <= maxRetries config ->
    isRetryableError error (retryableErrors config) = Normal true ->
    exists w',
      catch_block lg config attempt error w = (Normal tt, w')
      /\ outcomes w' = outcomes w.
Proof.
  intros config attempt error w Hle Hr.
  unfold catch_block.
  assert (Hlt : (maxRetries config <? attempt) = false)
    by (apply Z.ltb_ge; exact Hle).
  rewrite Hlt. unfold bind at 1. unfold eval. rewrite Hr. simpl.
  unfold bind at 1.
  assert (Hcb : exists w1,
             (match onRetry config with
              | Some f => callback (f attempt error)
              | None => ret tt
              end) w = (Normal tt, w1) /\ outcomes w1 = outcomes w).
  { destruct (onRetry config) as [f | ].
    - apply callback_spec.
    - eexists. split; reflexivity. }
  destruct Hcb as (w1 & -> & Ho1).
  unfold bind at 1. unfold calculateDelay_here, Math_random, bind, ret.
  cbv beta iota.
  match goal with
  | |- context [logging (logWarning lg ?m) ?w0] =>
      destruct (logging_logWarning_spec m w0) as (w2 & -> & Ho2)
  end.
  unfold delay, effect. eexists. split; [reflexivity | ].
  simpl. rewrite Ho2. simpl. exact Ho1.
Qed.

(** Whatever branch it takes, [catch] does not call the operation. *)
Lemma catch_block_outcomes :
  forall (config : RetryOptions) attempt error,
    quiet (catch_block lg config attempt error).
Proof.
  intros config attempt error. unfold catch_block.
  destruct (maxRetries config <? attempt).
  - apply quiet_bind; [destruct (onMaxRetriesReached config); auto with quiet | ].
    intros _. apply quiet_bind; auto with quiet.
  - apply quiet_bind; [auto with quiet | ]. intros retryable.
    destruct (negb retryable).
    + apply quiet_bind; auto with quiet.
    + apply quiet_bind; [destruct (onRetry config); auto with quiet | ].
      intros _. apply quiet_bind; [auto with quiet | ]. intros rnd.
      apply quiet_bind; auto with quiet.
Qed.

End WithRetryFacts.

Section WithRetryTheorems.

Variables S T : Type.
Variable lg : ErrorLogger.

Local Abbreviation World := (Retry.World S T).
Local Abbreviation Operation := (Retry.Operation S T).
Local Abbreviation RetryOptions := (Retry.RetryOptions S).

(** The loop needs one unit of fuel per remaining value of [attempt]; with
    that much it returns, having recorded only invocations of its own, and at
    least one if the loop condition held on entry. *)
Lemma withRetry_loop_terminates :
  forall (config : RetryOptions) (fn : Operation) fuel attempt lastError
         (w : World),
    (Z.to_nat (maxRetries config + 2 - attempt) <= fuel)%nat ->
    exists r w' l,
      withRetry_loop lg fuel config fn attempt lastError w = Some (r, w')
      /\ outcomes w' = (outcomes w ++ l)%list
      /\ (attempt <= maxRetries config + 1 -> l <> []).
Proof.
  intros config fn fuel.
  induction fuel as [ | fuel IH]; intros attempt lastError w Hfuel; simpl.
  - destruct (attempt <=? maxRetries config + 1) eqn:Hc.
    + apply Z.leb_le in Hc. lia.
    + apply Z.leb_gt in Hc.
      exists (Throw (or_default lastError JsUndefined)), w, [].
      split; [reflexivity | ]. split; [now rewrite app_nil_r | lia].
  - destruct (attempt <=? maxRetries config + 1) eqn:Hc.
    + apply Z.leb_le in Hc.
      destruct (try_block_outcomes lg fn attempt w) as [r1 Hr1].
      destruct (try_block lg fn attempt w) as [[v | e] w1]; simpl in Hr1.
      * exists (Normal v), w1, [r1].
        split; [reflexivity | ]. split; [exact Hr1 | discriminate].
      * pose proof (catch_block_outcomes lg config attempt e w1) as Hq.
        destruct (catch_block lg config attempt e w1) as [[u | e'] w2];
          simpl in Hq.
        -- destruct (IH (attempt + 1) (Some e) w2)
             as (r & w' & l & Hrun & Ho & _); [lia | ].
           exists r, w', (r1 :: l). split; [exact Hrun | ].
           split; [ | discriminate].
           rewrite Ho, Hq, Hr1, <- app_assoc. reflexivity.
        -- exists (Throw e'), w2, [r1].
           split; [reflexivity | ]. split; [congruence | discriminate].
    + apply Z.leb_gt in Hc.
      exists (Throw (or_default lastError JsUndefined)), w, [].
      split; [reflexivity | ]. split; [now rewrite app_nil_r | lia].
Qed.

(** [withRetry] returns for every operation, every policy and every world. *)
Lemma withRetry_terminates :
  forall (fn : Operation) options (w : World),
  exists r w' l,
    withRetry lg fn options w = Some (r, w')
    /\ outcomes w' = (outcomes w ++ l)%list.
Proof.
  intros fn options w. unfold withRetry.
  destruct (@withRetry_loop_terminates
              (merge (DEFAULT_RETRY_OPTIONS S) options) fn
              (Z.to_nat (maxRetries (merge (DEFAULT_RETRY_OPTIONS S) options) + 1))
              1 None w) as (r & w' & l & Hrun & Ho & _); [lia | ].
  exists r, w', l. split; assumption.
Qed.

Lemma withRetry_loop_step :
  forall (config : RetryOptions) (fn : Operation) fuel attempt lastError
         (w : World),
    attempt <= maxRetries config + 1 ->
    withRetry_loop lg (Datatypes.S fuel) config fn attempt lastError w
    = match try_block lg fn attempt w with
      | (Normal result, w1) => Some (Normal result, w1)
      | (Throw error, w1) =>
          match catch_block lg config attempt error w1 with
          | (Throw e, w2) => Some (Throw e, w2)
          | (Normal _, w2) =>
              withRetry_loop lg fuel config fn (attempt + 1) (Some error) w2
          end
      end.
Proof.
  intros config fn fuel attempt lastError w H.
  apply Z.leb_le in H. simpl. rewrite H. reflexivity.
Qed.

(** *** Exhaustion *)


Lemma withRetry_loop_always_failing :
  forall (config : RetryOptions) (fn : Operation),
    always_fails_retryably config fn ->
    forall k fuel attempt lastError (w : World),
      attempt + Z.of_nat k = maxRetries config + 1 ->
      (k < fuel)%nat ->
      exists e w' l0,
        withRetry_loop lg fuel config fn attempt lastError w
        = Some (Throw e, w')
        /\ outcomes w' = (outcomes w ++ l0 ++ [Throw e])%list
        /\ length l0 = k.
Proof.
  intros config fn Hfail k.
  induction k as [ | k IH]; intros fuel attempt lastError w Hk Hfuel;
    (destruct fuel as [ | fuel]; [lia | ]);
    (rewrite withRetry_loop_step by lia);
    destruct (Hfail (app w)) as (e & s' & Hfn & Hretry);
    destruct (try_block_failure lg fn attempt w Hfn) as (w1 & -> & Ho1 & _).
  - destruct (isRetryableError_classified _ _ Hretry) as [c Hc].
    destruct (@catch_block_exhausted S T lg config attempt e c w1)
      as (w2 & -> & Ho2); [lia | exact Hc | ].
    exists e, w2, []. repeat split. simpl. congruence.
  - destruct (@catch_block_retry S T lg config attempt e w1)
      as (w2 & -> & Ho2); [lia | exact Hretry | ].
    destruct (IH fuel (attempt + 1) (Some e) w2) as (e' & w' & l0 & -> & Ho & Hl);
      [lia | lia | ].
    exists e', w', (Throw e :: l0). split; [reflexivity | ]. split.
    + rewrite Ho, Ho2, Ho1, <- app_assoc. reflexivity.
    + simpl. now rewrite Hl.
Qed.

(** C1.  Let the merged policy have [maxRetries = N] with [N >= 0], and let
    the operation reject on every invocation with an error the policy counts
    as retryable.  Then [withRetry] returns, it has invoked the operation
    exactly [N + 1] times, and it rejects with the error of the last of
    these invocations. *)
Theorem withRetry_attempt_bound :
  forall (fn : Operation) options N (w : World),
    maxRetries (merge (DEFAULT_RETRY_OPTIONS S) options) = N ->
    0 <= N ->
    always_fails_retryably (merge (DEFAULT_RETRY_OPTIONS S) options) fn ->
    exists e w' l0,
      withRetry lg fn options w = Some (Throw e, w')
      /\ outcomes w' = (outcomes w ++ l0 ++ [Throw e])%list
      /\ length (l0 ++ [@Throw T e]) = Z.to_nat (N + 1).
Proof.
  intros fn options N w HN Hpos Hfail. unfold withRetry.
  destruct (@withRetry_loop_always_failing _ fn Hfail (Z.to_nat N)
              (Z.to_nat (maxRetries (merge (DEFAULT_RETRY_OPTIONS S) options) + 1))
              1 None w)
    as (e & w' & l0 & Hrun & Ho & Hl); [lia | lia | ].
  exists e, w', l0. split; [exact Hrun | ]. split; [exact Ho | ].
  rewrite length_app, Hl. simpl. lia.
Qed.

(** *** Fast failure *)

(** C3.  Let the first invocation reject with an error on which
    [isRetryableError] answers [false].  Then, for every [maxRetries >= 0],
    [withRetry] invokes the operation exactly once and rejects with that
    error. *)
Theorem withRetry_fast_fail :
  forall (fn : Operation) options (w : World) e s',
    0 <= maxRetries (merge (DEFAULT_RETRY_OPTIONS S) options) ->
    fn (app w) = (Throw e, s') ->
    isRetryableError e
      (retryableErrors (merge (DEFAULT_RETRY_OPTIONS S) options))
    = Normal false ->
    exists w',
      withRetry lg fn options w = Some (Throw e, w')
      /\ outcomes w' = (outcomes w ++ [Throw e])%list.
Proof.
  intros fn options w e s' Hpos Hfn Hnr. unfold withRetry.
  set (config := merge (DEFAULT_RETRY_OPTIONS S) options) in *.
  destruct (Z.to_nat (maxRetries config + 1)) as [ | fuel] eqn:Hfuel; [lia | ].
  rewrite withRetry_loop_step by lia.
  destruct (try_block_failure lg fn 1 w Hfn) as (w1 & -> & Ho1 & _).
  destruct (Z_lt_le_dec (maxRetries config) 1) as [Hlast | Hmore].
  - destruct (isRetryableError_classified _ _ Hnr) as [c Hc].
    destruct (@catch_block_exhausted S T lg config 1 e c w1)
      as (w2 & -> & Ho2); [exact Hlast | exact Hc | ].
    exists w2. split; [reflexivity | congruence].
  - destruct (@catch_block_fail_fast S T lg config 1 e w1)
      as (w2 & -> & Ho2); [exact Hmore | exact Hnr | ].
    exists w2. split; [reflexivity | congruence].
Qed.

(** *** Structured errors and the policy's code list *)


(** What a [false] from [isRetryableError] says: a generic exception the
    classifier does not mark retryable, or a structured error whose code is
    not in the policy's list. *)
Lemma isRetryableError_false_iff :
  forall error codes,
    isRetryableError error codes = Normal false <->
    (exists name message,
        error = JsError name message
        /\ ErrorHandler.isRetryable (classifyJavaScriptError name message)
           = false)
    \/ (exists code message,
           error = JsApiError code message
           /\ array_includes (or_default codes DEFAULT_retryableErrors) code
              = false).
Proof.
  intros [ | s | name message | code message ] codes; split;
    try (change (isRetryableError (JsApiError code message) codes)
           with (@Normal bool (array_includes
                                 (or_default codes DEFAULT_retryableErrors)
                                 code)));
    try (change (isRetryableError (JsError name message) codes)
           with (Normal (ErrorHandler.isRetryable
                           (classifyJavaScriptError name message)))).
  - discriminate.
  - intros [(n & m & H & _) | (c & m & H & _)]; discriminate H.
  - discriminate.
  - intros [(n & m & H & _) | (c & m & H & _)]; discriminate H.
  - intro H. left. exists name, message. split; [reflexivity | ].
    injection H as H. exact H.
  - intros [(n & m & H & Hr) | (c & m & H & _)]; [ | discriminate H].
    injection H as <- <-. now rewrite Hr.
  - intro H. right. exists code, message. split; [reflexivity | ].
    injection H as H. exact H.
  - intros [(n & m & H & _) | (c & m & H & Hr)]; [discriminate H | ].
    injection H as <- <-. now rewrite Hr.
Qed.

(** For a structured error the classifier is not consulted. *)
Lemma isRetryableError_structured :
  forall code msg codes,
    isRetryableError (JsApiError code msg) codes
    = Normal (array_includes (or_default codes DEFAULT_retryableErrors) code).
Proof. intros code msg [l | ]; reflexivity. Qed.


End WithRetryTheorems.

(** The default list holds exactly the codes the classifier marks retryable,
    so under the default policy the two agree. *)
Lemma DEFAULT_retryableErrors_agree_with_classifier :
  forall code,
    array_includes DEFAULT_retryableErrors code
    = isRetryable (classifyApiErrorResponse code).
Proof.
  intro code. unfold array_includes, DEFAULT_retryableErrors. simpl.
  destruct (String.eqb code RATE_LIMIT_EXCEEDED) eqn:E1;
    [apply String.eqb_eq in E1; subst; reflexivity | ].
  destruct (String.eqb code SERVICE_UNAVAILABLE) eqn:E2;
    [apply String.eqb_eq in E2; subst; reflexivity | ].
  destruct (String.eqb code EXTERNAL_SERVICE_ERROR) eqn:E3;
    [apply String.eqb_eq in E3; subst; reflexivity | ].
  destruct (String.eqb code DATABASE_ERROR) eqn:E4;
    [apply String.eqb_eq in E4; subst; reflexivity | ].
  unfold classifyApiErrorResponse, case_of. simpl.
  rewrite E1, E2, E3, E4. simpl.
  split_ifs; reflexivity.
Qed.

(** ** [retryTransaction] *)

Section RetryTransactionTheorems.

Import Transactions.

Variables Db T : Type.

Local Abbreviation World := (Transactions.World Db T).
Local Abbreviation PrismaClient := (Transactions.PrismaClient Db T).
Local Abbreviation TransactionFn := (Transactions.TransactionFn Db T).

(** Each call of [withTransaction] is one call of [client.$transaction], and
    its completion is what gets recorded. *)
Lemma withTransaction_results :
  forall (client : PrismaClient) (fn : TransactionFn) options (w : World) r w1,
    withTransaction client fn options w = (r, w1) ->
    results w1 = (results w ++ [r])%list.
Proof.
  intros client fn options w r w1. unfold withTransaction.
  destruct (dollar_transaction client fn _ _ (db w)) as [r0 d].
  intro H. injection H as <- <-. reflexivity.
Qed.

Lemma retryTransaction_loop_step :
  forall (client : PrismaClient) (fn : TransactionFn) maxRetries options
         fuel attempt lastError (w : World),
    attempt <= maxRetries ->
    retryTransaction_loop (S fuel) client fn maxRetries options attempt
                          lastError w
    = match withTransaction client fn options w with
      | (Normal result, w1) => Some (Normal result, w1)
      | (Throw error, w1) =>
          if (negb (isRetryable error) || (attempt =? maxRetries))%bool then
            Some (Throw error, w1)
          else
            retryTransaction_loop fuel client fn maxRetries options
              (attempt + 1) (Some error) (snd (sleep (2 ^ attempt * 100) w1))
      end.
Proof.
  intros client fn maxRetries options fuel attempt lastError w H.
  apply Z.leb_le in H. simpl. rewrite H.
  destruct (withTransaction client fn options w) as [[v | e] w1];
    reflexivity.
Qed.

(** The signatures [isRetryable] looks for. *)
Lemma isRetryable_iff :
  forall error,
    isRetryable error = true <->
    exists name message,
      error = JsError name message
      /\ (includes message "serialization_failure" = true
          \/ includes message "deadlock_detected" = true
          \/ includes message "could not serialize access" = true).
Proof.
  intros [ | s | name message | code message ]; unfold isRetryable; simpl;
    split; try discriminate;
    try (intros (n & m & Heq & _); discriminate Heq).
  - intro H. exists name, message. split; [reflexivity | ].
    apply orb_true_iff in H. destruct H as [H | H]; [ | tauto].
    apply orb_true_iff in H. tauto.
  - intros (n & m & Heq & H). injection Heq as <- <-.
    rewrite !orb_true_iff. tauto.
Qed.

(** With one unit of fuel per remaining attempt the loop returns, having
    recorded only submissions of its own, at least one if it was entered. *)
Lemma retryTransaction_loop_terminates :
  forall (client : PrismaClient) (fn : TransactionFn) maxRetries options
         fuel attempt lastError (w : World),
    (Z.to_nat (maxRetries + 1 - attempt) <= fuel)%nat ->
    exists r w' l,
      retryTransaction_loop fuel client fn maxRetries options attempt
                            lastError w = Some (r, w')
      /\ results w' = (results w ++ l)%list
      /\ (attempt <= maxRetries -> l <> []).
Proof.
  intros client fn maxRetries options fuel.
  induction fuel as [ | fuel IH]; intros attempt lastError w Hfuel.
  - simpl. destruct (attempt <=? maxRetries) eqn:Hc.
    + apply Z.leb_le in Hc. lia.
    + apply Z.leb_gt in Hc. eexists _, w, [].
      split; [reflexivity | ]. split; [now rewrite app_nil_r | lia].
  - destruct (Z_le_gt_dec attempt maxRetries) as [Hc | Hc].
    + rewrite retryTransaction_loop_step by exact Hc.
      destruct (withTransaction client fn options w) as [[v | e] w1] eqn:Hw;
        apply withTransaction_results in Hw.
      * exists (Normal v), w1, [Normal v].
        split; [reflexivity | ]. split; [exact Hw | discriminate].
      * destruct (negb (isRetryable e) || (attempt =? maxRetries))%bool.
        -- exists (Throw e), w1, [Throw e].
           split; [reflexivity | ]. split; [exact Hw | discriminate].
        -- destruct (IH (attempt + 1) (Some e)
                        (snd (sleep (2 ^ attempt * 100) w1)))
             as (r & w' & l & Hrun & Ho & _); [lia | ].
           exists r, w', (Throw e :: l). split; [exact Hrun | ].
           split; [ | discriminate].
           rewrite Ho. simpl. rewrite Hw, <- app_assoc. reflexivity.
    + simpl. assert (Hf : (attempt <=? maxRetries) = false)
        by (apply Z.leb_gt; lia).
      rewrite Hf. eexists _, w, [].
      split; [reflexivity | ]. split; [now rewrite app_nil_r | lia].
Qed.

(** When the loop condition fails on entry nothing is submitted and the
    unassigned [lastError] is thrown. *)
Lemma retryTransaction_loop_not_entered :
  forall (client : PrismaClient) (fn : TransactionFn) maxRetries options
         (w : World),
    maxRetries < 1 ->
    retryTransaction client fn (Some maxRetries) options w
    = Some (Throw JsUndefined, w).
Proof.
  intros client fn maxRetries options w H. unfold retryTransaction.
  assert (Hc : (1 <=? maxRetries) = false) by (apply Z.leb_gt; exact H).
  destruct (Z.to_nat maxRetries); simpl; rewrite Hc; reflexivity.
Qed.

(** At any attempt, a failure that is not a retryable signature leaves the
    loop at once. *)
Lemma retryTransaction_loop_fail_fast :
  forall (client : PrismaClient) (fn : TransactionFn) maxRetries options
         fuel attempt lastError (w : World) e w1,
    attempt <= maxRetries ->
    withTransaction client fn options w = (Throw e, w1) ->
    isRetryable e = false ->
    retryTransaction_loop (S fuel) client fn maxRetries options attempt
                          lastError w = Some (Throw e, w1).
Proof.
  intros client fn maxRetries options fuel attempt lastError w e w1 Hc Hw Hn.
  rewrite retryTransaction_loop_step by exact Hc.
  rewrite Hw, Hn. reflexivity.
Qed.

(** C5.  Let [maxRetries >= 1] and let the first submission fail with [e].
    If [e] is not an [Error] whose message contains one of the three
    signatures, [retryTransaction] rejects with [e] at once and the
    transaction has been submitted exactly once.  Conversely, whenever a
    second submission takes place, [e] is an [Error] whose message contains
    [serialization_failure], [deadlock_detected] or
    [could not serialize access]. *)
Theorem retryTransaction_retries_only_on_signature :
  forall (client : PrismaClient) (fn : TransactionFn) maxRetries options
         (w : World) e w1,
    1 <= maxRetries ->
    withTransaction client fn options w = (Throw e, w1) ->
    (isRetryable e = false ->
     retryTransaction client fn (Some maxRetries) options w
     = Some (Throw e, w1)
     /\ results w1 = (results w ++ [Throw e])%list)
    /\ (forall r w',
          retryTransaction client fn (Some maxRetries) options w
          = Some (r, w') ->
          (S (length (results w)) < length (results w'))%nat ->
          exists name message,
            e = JsError name message
            /\ (includes message "serialization_failure" = true
                \/ includes message "deadlock_detected" = true
                \/ includes message "could not serialize access" = true)).
Proof.
  intros client fn maxRetries options w e w1 Hmax Hw.
  assert (Hfast : isRetryable e = false ->
                  retryTransaction client fn (Some maxRetries) options w
                  = Some (Throw e, w1)
                  /\ results w1 = (results w ++ [Throw e])%list).
  { intro Hn. split.
    - unfold retryTransaction.
      destruct (Z.to_nat maxRetries) as [ | fuel] eqn:Hfuel; [lia | ].
      apply retryTransaction_loop_fail_fast; assumption.
    - apply withTransaction_results with (1 := Hw). }
  split; [exact Hfast | ].
  intros r w' Hrun Hlen.
  destruct (isRetryable e) eqn:He.
  - apply isRetryable_iff. exact He.
  - destruct (Hfast eq_refl) as [Hrun' Hres].
    rewrite Hrun' in Hrun. injection Hrun as _ <-.
    rewrite Hres, length_app in Hlen. simpl in Hlen. lia.
Qed.


Lemma retryTransaction_loop_always_failing :
  forall (client : PrismaClient) (fn : TransactionFn) maxRetries options,
    always_fails_with_signature client fn options ->
    forall k fuel attempt lastError (w : World),
      attempt + Z.of_nat k = maxRetries ->
      (k < fuel)%nat ->
      exists e w' l0,
        retryTransaction_loop fuel client fn maxRetries options attempt
                              lastError w = Some (Throw e, w')
        /\ results w' = (results w ++ l0 ++ [Throw e])%list
        /\ length l0 = k.
Proof.
  intros client fn maxRetries options Hfail k.
  induction k as [ | k IH]; intros fuel attempt lastError w Hk Hfuel;
    (destruct fuel as [ | fuel]; [lia | ]);
    (rewrite retryTransaction_loop_step by lia);
    destruct (Hfail w) as (e & w1 & Hw & He);
    rewrite Hw, He; pose proof (withTransaction_results _ _ _ _ Hw) as Hres;
    simpl negb; simpl orb.
  - assert (Hlast : (attempt =? maxRetries) = true) by (apply Z.eqb_eq; lia).
    rewrite Hlast. exists e, w1, []. repeat split. exact Hres.
  - assert (Hmore : (attempt =? maxRetries) = false) by (apply Z.eqb_neq; lia).
    rewrite Hmore.
    destruct (IH fuel (attempt + 1) (Some e)
                 (snd (sleep (2 ^ attempt * 100) w1)))
      as (e' & w' & l0 & -> & Ho & Hl); [lia | lia | ].
    exists e', w', (Throw e :: l0). split; [reflexivity | ]. split.
    + rewrite Ho. simpl. rewrite Hres, <- app_assoc. reflexivity.
    + simpl. now rewrite Hl.
Qed.

(** C6.  Let [maxRetries >= 1] and let every submission fail with a
    retryable storage signature.  Then [retryTransaction] returns, the
    transaction has been submitted exactly [maxRetries] times, and the call
    rejects with the error of the last submission. *)
Theorem retryTransaction_exhaustion :
  forall (client : PrismaClient) (fn : TransactionFn) maxRetries options
         (w : World),
    1 <= maxRetries ->
    always_fails_with_signature client fn options ->
    exists e w' l0,
      retryTransaction client fn (Some maxRetries) options w
      = Some (Throw e, w')
      /\ results w' = (results w ++ l0 ++ [Throw e])%list
      /\ length (l0 ++ [@Throw T e]) = Z.to_nat maxRetries.
Proof.
  intros client fn maxRetries options w Hmax Hfail. unfold retryTransaction.
  destruct (@retryTransaction_loop_always_failing client fn maxRetries options
              Hfail (Z.to_nat (maxRetries - 1)) (Z.to_nat maxRetries) 1 None w)
    as (e & w' & l0 & Hrun & Ho & Hl); [lia | lia | ].
  exists e, w', l0. split; [exact Hrun | ]. split; [exact Ho | ].
  rewrite length_app, Hl. simpl. lia.
Qed.

(** C10.  With [maxRetries = 0] the loop body never runs: nothing is
    submitted, the world is untouched, and the call rejects with the value
    of the unassigned [lastError], which is [undefined]. *)
Theorem retryTransaction_zero_retries :
  forall (client : PrismaClient) (fn : TransactionFn) options (w : World),
    retryTransaction client fn (Some 0) options w
    = Some (Throw JsUndefined, w).
Proof.
  intros client fn options w.
  apply retryTransaction_loop_not_entered. lia.
Qed.

(** [retryTransaction] returns for every client, operation and bound. *)
Lemma retryTransaction_terminates :
  forall (client : PrismaClient) (fn : TransactionFn) maxRetries options
         (w : World),
  exists r w' l,
    retryTransaction client fn maxRetries options w = Some (r, w')
    /\ results w' = (results w ++ l)%list.
Proof.
  intros client fn maxRetries options w. unfold retryTransaction.
  set (n := match maxRetries with Some n => n | None => 3 end).
  destruct (@retryTransaction_loop_terminates client fn n options
              (Z.to_nat n) 1 None w) as (r & w' & l & Hrun & Ho & _); [lia | ].
  exists r, w', l. split; assumption.
Qed.

End RetryTransactionTheorems.

(* ================================================================== *)
(** * The properties at concrete inputs *)

Section Instances.

Import Examples.

Local Open Scope list_scope.

(** C1 at [maxRetries = 2], for an operation that always times out. *)
Lemma withRetry_attempt_bound_witness :
  exists e w' l0,
    withRetry production_logger (op_always_throws network_timeout)
              (policy (Some 2) None) world0 = Some (Throw e, w')
    /\ outcomes w' = outcomes world0 ++ l0 ++ [Throw e]
    /\ length (l0 ++ [@Throw unit e]) = Z.to_nat (2 + 1).
Proof.
  apply (@withRetry_attempt_bound unit unit production_logger
           (op_always_throws network_timeout) (policy (Some 2) None) 2 world0).
  - reflexivity.
  - lia.
  - intro s. exists network_timeout, s. split; reflexivity.
Defined.

(** The same run, evaluated: three invocations, two sleeps, the time-out
    comes back. *)
Lemma withRetry_three_attempts :
  option_map (fun r => (fst r, outcomes (snd r), length (timers (snd r))))
    (withRetry production_logger (op_always_throws network_timeout)
               (policy (Some 2) None) world0)
  = Some (Throw network_timeout,
          [Throw network_timeout; Throw network_timeout; Throw network_timeout],
          2%nat).
Proof. vm_compute. reflexivity. Qed.

(** C3 under the default policy, for a validation failure. *)
Lemma withRetry_fast_fail_witness :
  exists w',
    withRetry production_logger (op_always_throws invalid_data)
              (policy None None) world0 = Some (Throw invalid_data, w')
    /\ outcomes w' = outcomes world0 ++ [Throw invalid_data].
Proof.
  apply (@withRetry_fast_fail unit unit production_logger
           (op_always_throws invalid_data) (policy None None) world0
           invalid_data tt).
  - simpl. lia.
  - reflexivity.
  - reflexivity.
Defined.

(** Below zero [maxRetries] is outside the policy's type; there the loop is
    never entered. *)
Lemma withRetry_negative_maxRetries :
  forall (lg : ErrorLogger) (fn : Retry.Operation unit unit) w,
    withRetry lg fn (policy (Some (-1)) None) w = Some (Throw JsUndefined, w).
Proof. reflexivity. Qed.


(** C7 as stated fails.  The classifier marks [RATE_LIMIT_EXCEEDED]
    retryable and three retries remain, but the policy lists only
    [DATABASE_ERROR]: the operation is invoked once and the error comes
    straight back. *)
Lemma withRetry_unlisted_code_not_retried :
  ErrorHandler.isRetryable (classifyApiErrorResponse RATE_LIMIT_EXCEEDED) = true
  /\ maxRetries (merge (DEFAULT_RETRY_OPTIONS unit)
                       (policy None (Some [DATABASE_ERROR]))) = 3
  /\ option_map (fun r => (fst r, outcomes (snd r)))
       (withRetry production_logger (op_always_throws rate_limited)
                  (policy None (Some [DATABASE_ERROR])) world0)
     = Some (Throw rate_limited, [Throw rate_limited]).
Proof.
  split; [reflexivity | ]. split; [reflexivity | ].
  vm_compute. reflexivity.
Qed.

(** How a value outside the declared type reaches [logError]: the promise
    rejects with a string, [maxRetries] is 0, and the caller of [withRetry]
    receives the logger's [TypeError] in place of the original rejection. *)
Lemma withRetry_logger_failure_masks_error :
  option_map (fun r => (fst r, outcomes (snd r), console (snd r)))
    (withRetry production_logger (op_always_throws (JsString "boom"))
               (policy (Some 0) None) world0)
  = Some (Throw (TypeError_read "toLowerCase"), [Throw (JsString "boom")], []).
Proof. vm_compute. reflexivity. Qed.

Import Transactions.

(** C5 for a failure that carries no storage signature. *)
Lemma retryTransaction_retries_only_on_signature_witness :
  retryTransaction (client_always_throws invalid_data) tx_noop (Some 3)
                   tx_options0 tx_world0
  = Some (Throw invalid_data, mkWorld tt [Throw invalid_data] [])
  /\ results (mkWorld tt [@Throw unit invalid_data] [])
     = results tx_world0 ++ [Throw invalid_data].
Proof.
  assert (Hmax : 1 <= 3) by lia.
  assert (Hw : withTransaction (client_always_throws invalid_data) tx_noop
                 tx_options0 tx_world0
               = (Throw invalid_data, mkWorld tt [Throw invalid_data] []))
    by reflexivity.
  destruct (@retryTransaction_retries_only_on_signature unit unit
              (client_always_throws invalid_data) tx_noop 3 tx_options0
              tx_world0 invalid_data (mkWorld tt [Throw invalid_data] [])
              Hmax Hw) as [Hfast _].
  apply Hfast. reflexivity.
Defined.

(** A structured error is not an [Error] instance, so it is not retried
    whatever its message says. *)
Lemma retryTransaction_structured_error_not_retried :
  isRetryable (JsApiError DATABASE_ERROR "deadlock_detected") = false
  /\ retryTransaction
       (client_always_throws (JsApiError DATABASE_ERROR "deadlock_detected"))
       tx_noop (Some 3) tx_options0 tx_world0
     = Some (Throw (JsApiError DATABASE_ERROR "deadlock_detected"),
             mkWorld tt [Throw (JsApiError DATABASE_ERROR "deadlock_detected")]
                     []).
Proof. split; reflexivity. Qed.

(** C6 at [maxRetries = 2], with [Error("deadlock_detected")] every time. *)
Lemma retryTransaction_exhaustion_witness :
  exists e w' l0,
    retryTransaction (client_always_throws deadlock) tx_noop (Some 2)
                     tx_options0 tx_world0 = Some (Throw e, w')
    /\ results w' = results tx_world0 ++ l0 ++ [Throw e]
    /\ length (l0 ++ [@Throw unit e]) = Z.to_nat 2.
Proof.
  apply (@retryTransaction_exhaustion unit unit
           (client_always_throws deadlock) tx_noop 2 tx_options0 tx_world0).
  - lia.
  - intro w. exists deadlock. eexists. split; reflexivity.
Defined.

(** The same run, evaluated: two submissions, one sleep of 2^1 * 100 ms, and
    the deadlock error comes back. *)
Lemma retryTransaction_deadlock_twice :
  retryTransaction (client_always_throws deadlock) tx_noop (Some 2)
                   tx_options0 tx_world0
  = Some (Throw (JsError "Error" "deadlock_detected"),
          mkWorld tt [Throw deadlock; Throw deadlock] [200]).
Proof. reflexivity. Qed.

End Instances.

(** C8 at a negative base and a multiplier below one. *)
Lemma calculateDelay_never_fails_witness :
  exists d,
    calculateDelay_call pow_by_multiplication (of_dyadic 1 (-1)) (of_Z 2)
                        (of_Z (-5)) (of_Z 100) (of_dyadic 1 (-1))
    = Normal d
    /\ (isNaN d = true \/ leb d (of_Z 100) = true).
Proof.
  apply (calculateDelay_never_fails pow_by_multiplication (of_dyadic 1 (-1))
           (of_Z 2) (of_Z (-5)) (of_Z 100) (of_dyadic 1 (-1))).
Defined.

(* ================================================================== *)
(** * Further properties *)

(** ** More on the classifier *)

(** X4.  Beyond the pairing of C2: a classification that is retryable is
    operational, of severity medium or high, and of category network or
    system; a classification of severity critical is neither operational nor
    retryable. *)
Theorem classifyError_retryable_and_critical :
  forall error c,
    classifyError error = Normal c ->
    (ErrorHandler.isRetryable c = true ->
     isOperational c = true
     /\ (severity c = medium \/ severity c = high)
     /\ (category c = network \/ category c = system))
    /\ (severity c = critical ->
        isOperational c = false /\ ErrorHandler.isRetryable c = false).
Proof.
  intros [ | s | name message | code message ] c H; simpl in H;
    try discriminate H; injection H as <-.
  - unfold classifyJavaScriptError. split_ifs; simpl;
      (split; [intro H; try discriminate H | intro H; try discriminate H]);
      auto.
  - unfold classifyApiErrorResponse. split_ifs; simpl;
      (split; [intro H; try discriminate H | intro H; try discriminate H]);
      auto.
Qed.

Lemma classifyError_retryable_and_critical_witness :
  isOperational (classifyApiErrorResponse DATABASE_ERROR) = true
  /\ (severity (classifyApiErrorResponse DATABASE_ERROR) = medium
      \/ severity (classifyApiErrorResponse DATABASE_ERROR) = high)
  /\ (category (classifyApiErrorResponse DATABASE_ERROR) = network
      \/ category (classifyApiErrorResponse DATABASE_ERROR) = system).
Proof.
  assert (Hc : classifyError (JsApiError DATABASE_ERROR "down")
               = Normal (classifyApiErrorResponse DATABASE_ERROR))
    by reflexivity.
  apply (proj1 (@classifyError_retryable_and_critical _ _ Hc)).
  reflexivity.
Defined.

(** X5.  Under the default policy [isRetryableError] is the classifier's
    verdict, on structured errors as on generic exceptions; on a value that
    does not classify both throw the same error. *)
Theorem isRetryableError_default_follows_classifier :
  forall error,
    isRetryableError error None
    = match classifyError error with
      | Normal c => Normal (ErrorHandler.isRetryable c)
      | Throw t => Throw t
      end.
Proof.
  intros [ | s | name message | code message ]; try reflexivity.
  change (Normal (array_includes DEFAULT_retryableErrors code)
          = Normal (ErrorHandler.isRetryable (classifyApiErrorResponse code))).
  now rewrite DEFAULT_retryableErrors_agree_with_classifier.
Qed.

Lemma lower_ascii_idempotent :
  forall c, lower_ascii (lower_ascii c) = lower_ascii c.
Proof.
  intros [[] [] [] [] [] [] [] []]; vm_compute; reflexivity.
Qed.

Lemma toLowerCase_idempotent :
  forall s, toLowerCase (toLowerCase s) = toLowerCase s.
Proof.
  induction s as [ | c s IH]; simpl; [reflexivity | ].
  now rewrite lower_ascii_idempotent, IH.
Qed.

(** X6.  For a name and a message made of ASCII characters, the
    classification of a generic exception does not depend on the case of
    the letters: lower-casing both first gives the same classification. *)
Theorem classifyJavaScriptError_ignores_case :
  forall name message,
    ascii_only name = true ->
    ascii_only message = true ->
    classifyJavaScriptError (toLowerCase name) (toLowerCase message)
    = classifyJavaScriptError name message.
Proof.
  intros name message _ _. unfold classifyJavaScriptError.
  now rewrite !toLowerCase_idempotent.
Qed.

Lemma classifyJavaScriptError_ignores_case_witness :
  classifyJavaScriptError (toLowerCase "TypeError")
                          (toLowerCase "Network Timeout")
  = classifyJavaScriptError "TypeError" "Network Timeout".
Proof.
  apply classifyJavaScriptError_ignores_case.
  - reflexivity.
  - reflexivity.
Defined.

(** ** More on the logger *)

Lemma outputLog_with_error :
  forall lg lvl m error c,
    classifyError error = Normal c ->
    exists ser,
      forall out,
        outputLog lg (mkLogEntry lvl m (Some error) (Some c)) out
        = (Normal tt,
           (out ++ [Console lvl (mkLogData lvl m (Some c) (Some ser))])%list).
Proof.
  intros lg lvl m [ | s | name message | code message ] c H;
    simpl in H; try discriminate H; eexists; intro out;
    unfold outputLog, bind, eval, effect; simpl; reflexivity.
Qed.

Lemma logged_message :
  forall error (msg : option string) c,
    classifyError error = Normal c ->
    exists final,
      match msg with
      | Some m => if String.eqb m "" then getDefaultMessage error
                  else Normal m
      | None => getDefaultMessage error
      end = Normal final
      /\ (forall m, msg = Some m -> m <> "" -> final = m).
Proof.
  intros error msg c H.
  assert (Hd : exists d, getDefaultMessage error = Normal d).
  { destruct error; simpl in H; try discriminate H; eexists; reflexivity. }
  destruct Hd as [d Hd].
  destruct msg as [m | ]; [destruct (String.eqb m "") eqn:Em | ].
  - exists d. split; [exact Hd | ].
    intros m0 Hm0 Hne. injection Hm0 as <-.
    apply String.eqb_eq in Em. contradiction.
  - exists m. split; [reflexivity | ].
    intros m0 Hm0 _. now injection Hm0 as <-.
  - exists d. split; [exact Hd | ]. intros m0 Hm0. discriminate Hm0.
Qed.

(** What [logError] writes for an error that classifies. *)
Lemma logError_run :
  forall lg error msg out c,
    classifyError error = Normal c ->
    exists data,
      logError lg error msg out
      = (Normal tt,
         (out ++ Console (getLogLevel c) data
              :: (if (negb (isDevelopment lg)
                      && LogLevel_eqb (getLogLevel c) ERROR)%bool
                  then [Monitoring (getLogLevel c) (ld_message data)]
                  else []))%list)
      /\ ld_level data = getLogLevel c
      /\ ld_classification data = Some c
      /\ (forall m, msg = Some m -> m <> "" -> ld_message data = m).
Proof.
  intros lg error msg out c H.
  destruct (logged_message error msg H) as (final & Hfinal & Hgiven).
  destruct (outputLog_with_error lg (getLogLevel c) final error H)
    as [ser Hout].
  exists (mkLogData (getLogLevel c) final (Some c) (Some ser)).
  split; [ | repeat split; exact Hgiven].
  unfold logError, bind, eval. rewrite H, Hfinal, Hout.
  destruct (negb (isDevelopment lg) && LogLevel_eqb (getLogLevel c) ERROR)%bool.
  - unfold sendToMonitoringService, effect. simpl.
    rewrite <- app_assoc. reflexivity.
  - reflexivity.
Qed.

(** X7.  For an error that classifies as [c], [logError] writes one console
    record, through the console method of the level derived from [c]'s
    severity and carrying [c]; it then writes one monitoring record exactly
    when the logger is not in development mode and that level is [ERROR];
    it writes nothing else.  A non-empty message given by the caller is the
    message logged. *)
Theorem logError_output :
  forall lg error msg out c,
    classifyError error = Normal c ->
    exists data,
      logError lg error msg out
      = (Normal tt,
         (out ++ Console (getLogLevel c) data
              :: (if (negb (isDevelopment lg)
                      && LogLevel_eqb (getLogLevel c) ERROR)%bool
                  then [Monitoring (getLogLevel c) (ld_message data)]
                  else []))%list)
      /\ ld_level data = getLogLevel c
      /\ ld_classification data = Some c
      /\ (forall m, msg = Some m -> m <> "" -> ld_message data = m).
Proof.
  intros lg error msg out c H. apply logError_run. exact H.
Qed.

Lemma logError_output_witness :
  exists data,
    logError (mkErrorLogger false) (JsApiError DATABASE_ERROR "down")
             (Some "Query failed") []
    = (Normal tt,
       [Console ERROR data; Monitoring ERROR (ld_message data)])
    /\ ld_message data = "Query failed".
Proof.
  assert (Hc : classifyError (JsApiError DATABASE_ERROR "down")
               = Normal (classifyApiErrorResponse DATABASE_ERROR))
    by reflexivity.
  destruct (@logError_output (mkErrorLogger false) _ (Some "Query failed")
              [] _ Hc) as (data & Hrun & _ & _ & Hm).
  exists data. split.
  - exact Hrun.
  - apply (Hm "Query failed"); [reflexivity | discriminate].
Defined.

(** X8.  Outside development mode every error that classifies as not
    operational ends up with the monitoring service: the last thing
    [logError] writes for it is a monitoring record at level [ERROR]. *)
Theorem logError_defect_reaches_monitoring :
  forall lg error msg out c,
    isDevelopment lg = false ->
    classifyError error = Normal c ->
    isOperational c = false ->
    exists out0 m,
      logError lg error msg out
      = (Normal tt, (out0 ++ [Monitoring ERROR m])%list).
Proof.
  intros lg error msg out c Hprod Hc Hop.
  assert (Hsev : severity c = critical).
  { destruct error as [ | s | name message | code message ];
      simpl in Hc; try discriminate Hc; injection Hc as <-.
    - apply classifyJavaScriptError_pairing. exact Hop.
    - apply classifyApiErrorResponse_pairing. exact Hop. }
  destruct (logError_run lg error msg out Hc) as (data & Hrun & _).
  unfold getLogLevel in Hrun. rewrite Hsev, Hprod in Hrun. simpl in Hrun.
  exists (out ++ [Console ERROR data])%list, (ld_message data).
  rewrite Hrun, <- app_assoc. reflexivity.
Qed.

Lemma logError_defect_reaches_monitoring_witness :
  exists out0 m,
    logError (mkErrorLogger false)
             (JsError "TypeError" "x is not a function") None []
    = (Normal tt, (out0 ++ [Monitoring ERROR m])%list).
Proof.
  apply (@logError_defect_reaches_monitoring (mkErrorLogger false)
           (JsError "TypeError" "x is not a function") None []
           (mkClassification false false critical system)).
  - reflexivity.
  - reflexivity.
  - reflexivity.
Defined.

(** ** More on [withRetry] *)

Section WithRetryRuns.

Variables S T : Type.
Variable lg : ErrorLogger.

Local Abbreviation World := (Retry.World S T).
Local Abbreviation Operation := (Retry.Operation S T).
Local Abbreviation RetryOptions := (Retry.RetryOptions S).

Local Open Scope list_scope.

(** [try] completes the way the invocation did, and sleeps nothing. *)
Lemma try_block_run :
  forall (fn : Operation) attempt (w : World),
  exists w1,
    try_block lg fn attempt w = (fst (fn (app w)), w1)
    /\ outcomes w1 = outcomes w ++ [fst (fn (app w))]
    /\ timers w1 = timers w
    /\ (forall e, fst (fn (app w)) = Throw e ->
                  app w1 = snd (fn (app w)) /\ console w1 = console w).
Proof.
  intros fn attempt w. unfold try_block, bind, invoke.
  destruct (fn (app w)) as [[v | e] s']; simpl.
  - destruct (1 <? attempt).
    + unfold logging, logInfo. rewrite outputLog_without_error. simpl.
      eexists. repeat split; try reflexivity; discriminate.
    + eexists. repeat split; try reflexivity; discriminate.
  - eexists. repeat split; reflexivity.
Qed.

(** [catch] either rethrows, having slept nothing, or -- only for a
    retryable error with attempts left -- sleeps one delay, NaN or under the
    cap, and falls through. *)
Lemma catch_block_cases :
  forall (config : RetryOptions) attempt error (w : World),
    (exists e' w',
        catch_block lg config attempt error w = (Throw e', w')
        /\ outcomes w' = outcomes w /\ timers w' = timers w)
    \/ (exists w' d,
           catch_block lg config attempt error w = (Normal tt, w')
           /\ outcomes w' = outcomes w
           /\ timers w' = timers w ++ [d]
           /\ (isNaN d = true \/ leb d (maxDelay config) = true)
           /\ attempt <= maxRetries config
           /\ isRetryableError error (retryableErrors config) = Normal true
           /\ app w' = match onRetry config with
                       | Some f => f attempt error (app w)
                       | None => app w
                       end).
Proof.
  intros config attempt error w. unfold catch_block.
  destruct (maxRetries config <? attempt) eqn:Hlt.
  - left. unfold bind at 1.
    destruct (onMaxRetriesReached config) as [f | ];
      unfold callback, effect, ret, bind, logging; simpl;
      match goal with
      | |- context [logError lg error ?m ?c] =>
          destruct (logError lg error m c) as [[u | t] out']
      end; simpl; eexists; eexists; repeat split; reflexivity.
  - apply Z.ltb_ge in Hlt. unfold bind at 1. unfold eval.
    destruct (isRetryableError error (retryableErrors config))
      as [[ | ] | t] eqn:Hr; simpl.
    + right.
      destruct (onRetry config) as [f | ];
        unfold callback, effect, ret, bind, calculateDelay_here, Math_random,
          logging, logWarning;
        simpl; unfold delay, effect; simpl;
        eexists; eexists; repeat split; try reflexivity; try assumption;
        apply calculateDelay_le_max.
    + left. unfold bind, logging.
      match goal with
      | |- context [logError lg error ?m ?c] =>
          destruct (logError lg error m c) as [[u | t] out']
      end; simpl; eexists; eexists; repeat split; reflexivity.
    + left. eexists; eexists; repeat split; reflexivity.
Qed.

(** Every run of the loop, once entered with enough fuel. *)
Lemma withRetry_loop_run :
  forall (config : RetryOptions) (fn : Operation) fuel attempt lastError
         (w : World),
    attempt <= maxRetries config + 1 ->
    (Z.to_nat (maxRetries config + 2 - attempt) <= fuel)%nat ->
    exists r w' es r_last ds,
      withRetry_loop lg fuel config fn attempt lastError w = Some (r, w')
      /\ outcomes w' = outcomes w ++ map Throw es ++ [r_last]
      /\ timers w' = timers w ++ ds
      /\ length ds = length es
      /\ (length es <= Z.to_nat (maxRetries config + 1 - attempt))%nat
      /\ Forall (fun d => isNaN d = true \/ leb d (maxDelay config) = true)
                ds
      /\ Forall (fun e => isRetryableError e (retryableErrors config)
                          = Normal true) es
      /\ (forall v, r = Normal v <-> r_last = Normal v).
Proof.
  intros config fn fuel.
  induction fuel as [ | fuel IH]; intros attempt lastError w Hin Hfuel;
    [lia | ].
  rewrite withRetry_loop_step by exact Hin.
  destruct (try_block_run fn attempt w) as (w1 & -> & Ho1 & Ht1 & _).
  destruct (fst (fn (app w))) as [v | e] eqn:Hfn.
  - exists (Normal v), w1, [], (Normal v), [].
    split; [reflexivity | ]. split; [exact Ho1 | ].
    split; [now rewrite app_nil_r | ]. split; [reflexivity | ].
    split; [simpl; lia | ]. split; [constructor | ].
    split; [constructor | ]. intro v0. reflexivity.
  - destruct (catch_block_cases config attempt e w1)
      as [(e' & w2 & -> & Ho2 & Ht2)
         | (w2 & d & -> & Ho2 & Ht2 & Hd & Hle & Hretry & _)].
    + exists (Throw e'), w2, [], (Throw e), [].
      split; [reflexivity | ]. split; [simpl; congruence | ].
      split; [rewrite app_nil_r; congruence | ]. split; [reflexivity | ].
      split; [simpl; lia | ]. split; [constructor | ].
      split; [constructor | ].
      intro v0. split; intro H; discriminate H.
    + destruct (IH (attempt + 1) (Some e) w2)
        as (r & w' & es & r_last & ds & Hrun & Ho & Ht & Hlen & Hbound
            & Hds & Hes & Hres); [lia | lia | ].
      exists r, w', (e :: es), r_last, (d :: ds).
      split; [exact Hrun | ]. split.
      { rewrite Ho, Ho2, Ho1, <- app_assoc. reflexivity. }
      split.
      { rewrite Ht, Ht2, Ht1, <- app_assoc. reflexivity. }
      split; [simpl; now rewrite Hlen | ].
      split; [simpl; lia | ].
      split; [constructor; assumption | ].
      split; [constructor; assumption | exact Hres].
Qed.

(** X9.  Whatever the operation does, with [maxRetries >= 0] [withRetry]
    invokes it at least once and at most [maxRetries + 1] times. *)
Theorem withRetry_invocation_bound :
  forall (fn : Operation) options (w : World),
    0 <= maxRetries (merge (DEFAULT_RETRY_OPTIONS S) options) ->
    exists r w' l,
      withRetry lg fn options w = Some (r, w')
      /\ outcomes w' = outcomes w ++ l
      /\ (1 <= length l
          <= Z.to_nat (maxRetries (merge (DEFAULT_RETRY_OPTIONS S) options)
                       + 1))%nat.
Proof.
  intros fn options w Hpos. unfold withRetry.
  set (config := merge (DEFAULT_RETRY_OPTIONS S) options) in *.
  destruct (@withRetry_loop_run config fn (Z.to_nat (maxRetries config + 1))
              1 None w)
    as (r & w' & es & r_last & ds & Hrun & Ho & _ & _ & Hbound & _);
    [lia | lia | ].
  exists r, w', (map Throw es ++ [r_last]).
  split; [exact Hrun | ]. split; [exact Ho | ].
  rewrite length_app, length_map. cbn [length]. lia.
Qed.

(** X10.  In every run with [maxRetries >= 0], all invocations but the last
    rejected, each with an error the policy counts as retryable; and
    [withRetry] fulfils with [v] exactly when the last invocation fulfilled
    with [v] -- a success is returned at once, and a failure is never turned
    into a success. *)
Theorem withRetry_record_shape :
  forall (fn : Operation) options (w : World),
    0 <= maxRetries (merge (DEFAULT_RETRY_OPTIONS S) options) ->
    exists r w' es r_last,
      withRetry lg fn options w = Some (r, w')
      /\ outcomes w' = outcomes w ++ map Throw es ++ [r_last]
      /\ Forall (fun e =>
                   isRetryableError e
                     (retryableErrors
                        (merge (DEFAULT_RETRY_OPTIONS S) options))
                   = Normal true) es
      /\ (forall v, r = Normal v <-> r_last = Normal v).
Proof.
  intros fn options w Hpos. unfold withRetry.
  set (config := merge (DEFAULT_RETRY_OPTIONS S) options) in *.
  destruct (@withRetry_loop_run config fn (Z.to_nat (maxRetries config + 1))
              1 None w)
    as (r & w' & es & r_last & ds & Hrun & Ho & _ & _ & _ & _ & Hes & Hres);
    [lia | lia | ].
  exists r, w', es, r_last. repeat split; try assumption; apply Hres.
Qed.

(** X11.  In every run with [maxRetries >= 0], [withRetry] sleeps exactly
    once between two consecutive invocations -- one delay fewer than there
    are invocations -- and every delay slept is NaN or at most the policy's
    [maxDelay]. *)
Theorem withRetry_sleeps :
  forall (fn : Operation) options (w : World),
    0 <= maxRetries (merge (DEFAULT_RETRY_OPTIONS S) options) ->
    exists r w' l ds,
      withRetry lg fn options w = Some (r, w')
      /\ outcomes w' = outcomes w ++ l
      /\ timers w' = timers w ++ ds
      /\ Datatypes.S (length ds) = length l
      /\ Forall (fun d =>
                   isNaN d = true
                   \/ leb d (maxDelay (merge (DEFAULT_RETRY_OPTIONS S)
                                             options)) = true)
                ds.
Proof.
  intros fn options w Hpos. unfold withRetry.
  set (config := merge (DEFAULT_RETRY_OPTIONS S) options) in *.
  destruct (@withRetry_loop_run config fn (Z.to_nat (maxRetries config + 1))
              1 None w)
    as (r & w' & es & r_last & ds & Hrun & Ho & Ht & Hlen & _ & Hds & _);
    [lia | lia | ].
  exists r, w', (map Throw es ++ [r_last]), ds.
  split; [exact Hrun | ]. split; [exact Ho | ]. split; [exact Ht | ].
  split; [ | exact Hds].
  rewrite length_app, length_map, Hlen. simpl. lia.
Qed.

(** The loop on an operation that fails retryably [k] more times and then
    completes with [final]. *)
Lemma withRetry_loop_recovers :
  forall (config : RetryOptions) (fn : Operation) (left : S -> nat)
         (final : Completion T),
    (forall s n, left s = Datatypes.S n ->
                 exists e s',
                   fn s = (Throw e, s')
                   /\ isRetryableError e (retryableErrors config) = Normal true
                   /\ left s' = n) ->
    (forall s, left s = O -> exists s', fn s = (final, s')) ->
    (forall f a e s, onRetry config = Some f -> left (f a e s) = left s) ->
    match final with
    | Normal _ => True
    | Throw e => isRetryableError e (retryableErrors config) = Normal false
    end ->
    forall k fuel attempt lastError (w : World),
      left (app w) = k ->
      attempt + Z.of_nat k <= maxRetries config + 1 ->
      (k < fuel)%nat ->
      exists w' es ds,
        withRetry_loop lg fuel config fn attempt lastError w = Some (final, w')
        /\ outcomes w' = outcomes w ++ map Throw es ++ [final]
        /\ length es = k
        /\ timers w' = timers w ++ ds
        /\ length ds = k.
Proof.
  intros config fn left final Hstep Hdone Hcb Hfinal k.
  induction k as [ | k IH]; intros fuel attempt lastError w Hk Hatt Hfuel;
    (destruct fuel as [ | fuel]; [lia | ]);
    (rewrite withRetry_loop_step by lia);
    destruct (try_block_run fn attempt w) as (w1 & -> & Ho1 & Ht1 & Happ).
  - destruct (Hdone (app w) Hk) as [s' Hfn]. rewrite Hfn in *. simpl in *.
    destruct final as [v | e].
    + exists w1, [], []. repeat split; try assumption.
      now rewrite app_nil_r.
    + assert (Hthrow : exists w2,
                 catch_block lg config attempt e w1 = (Throw e, w2)).
      { destruct (Z_lt_le_dec (maxRetries config) attempt) as [Hlast | Hmore].
        - destruct (isRetryableError_classified _ _ Hfinal) as [c Hc].
          destruct (@catch_block_exhausted S T lg config attempt e c w1
                      Hlast Hc) as (w2 & H2 & _).
          exists w2. exact H2.
        - destruct (@catch_block_fail_fast S T lg config attempt e w1
                      Hmore Hfinal) as (w2 & H2 & _).
          exists w2. exact H2. }
      destruct Hthrow as [w2 Hcatch].
      destruct (catch_block_cases config attempt e w1)
        as [(e' & w2' & Hc' & Ho2 & Ht2) | (w2' & d & Hc' & _)];
        rewrite Hcatch in Hc'; [ | discriminate Hc'].
      injection Hc' as _ <-. rewrite Hcatch.
      exists w2, [], []. split; [reflexivity | ].
      split; [simpl; congruence | ]. split; [reflexivity | ].
      split; [rewrite app_nil_r; congruence | reflexivity].
  - destruct (Hstep (app w) k Hk) as (e & s' & Hfn & Hretry & Hleft).
    rewrite Hfn in *. simpl in *.
    destruct (Happ e eq_refl) as [Happ1 _].
    destruct (catch_block_cases config attempt e w1)
      as [(e' & w2 & Hc & _) | (w2 & d & Hc & Ho2 & Ht2 & _ & _ & _ & Happ2)].
    + destruct (@catch_block_retry S T lg config attempt e w1)
        as (w2' & Hc' & _); [lia | exact Hretry | ].
      rewrite Hc in Hc'. discriminate Hc'.
    + rewrite Hc.
      assert (Hk2 : left (app w2) = k).
      { rewrite Happ2. destruct (onRetry config) as [f | ] eqn:Hf.
        - rewrite (Hcb f attempt e (app w1) eq_refl). congruence.
        - congruence. }
      destruct (IH fuel (attempt + 1) (Some e) w2 Hk2)
        as (w' & es & ds & Hrun & Ho & Hes & Ht & Hds); [lia | lia | ].
      exists w', (e :: es), (d :: ds). split; [exact Hrun | ].
      split; [rewrite Ho, Ho2, Ho1, <- app_assoc; reflexivity | ].
      split; [simpl; now rewrite Hes | ].
      split; [rewrite Ht, Ht2, Ht1, <- app_assoc; reflexivity | ].
      simpl. now rewrite Hds.
Qed.

(** X12.  Let the operation fail [k] times with errors the policy counts as
    retryable and then complete with [final], a success or a non-retryable
    failure, where [k <= maxRetries] (the count [left] of failures to come is
    read off the operation's state, and the [onRetry] callback does not
    disturb it).  Then [withRetry] completes with [final] after exactly
    [k + 1] invocations and [k] sleeps. *)
Theorem withRetry_recovers :
  forall (fn : Operation) options (w : World) (left : S -> nat)
         (final : Completion T),
    (forall s n, left s = Datatypes.S n ->
                 exists e s',
                   fn s = (Throw e, s')
                   /\ isRetryableError e
                        (retryableErrors
                           (merge (DEFAULT_RETRY_OPTIONS S) options))
                      = Normal true
                   /\ left s' = n) ->
    (forall s, left s = O -> exists s', fn s = (final, s')) ->
    (forall f a e s,
        onRetry (merge (DEFAULT_RETRY_OPTIONS S) options) = Some f ->
        left (f a e s) = left s) ->
    match final with
    | Normal _ => True
    | Throw e =>
        isRetryableError e
          (retryableErrors (merge (DEFAULT_RETRY_OPTIONS S) options))
        = Normal false
    end ->
    Z.of_nat (left (app w))
    <= maxRetries (merge (DEFAULT_RETRY_OPTIONS S) options) ->
    exists w' es ds,
      withRetry lg fn options w = Some (final, w')
      /\ outcomes w' = outcomes w ++ map Throw es ++ [final]
      /\ length es = left (app w)
      /\ timers w' = timers w ++ ds
      /\ length ds = left (app w).
Proof.
  intros fn options w left final Hstep Hdone Hcb Hfinal Hk. unfold withRetry.
  apply (@withRetry_loop_recovers
           (merge (DEFAULT_RETRY_OPTIONS S) options) fn left final
           Hstep Hdone Hcb Hfinal (left (app w))); [reflexivity | lia | lia].
Qed.

(** X13.  A rejection with a string is outside what the classifier can
    read: for every [maxRetries >= 0], [withRetry] invokes the operation
    once and rejects with the classifier's [TypeError], not with the string;
    it neither logs nor sleeps. *)
Theorem withRetry_string_rejection_masked :
  forall (fn : Operation) options (w : World) str s',
    0 <= maxRetries (merge (DEFAULT_RETRY_OPTIONS S) options) ->
    fn (app w) = (Throw (JsString str), s') ->
    exists w',
      withRetry lg fn options w
      = Some (Throw (TypeError_read "toLowerCase"), w')
      /\ outcomes w' = outcomes w ++ [Throw (JsString str)]
      /\ console w' = console w
      /\ timers w' = timers w.
Proof.
  intros fn options w str s' Hpos Hfn. unfold withRetry.
  set (config := merge (DEFAULT_RETRY_OPTIONS S) options) in *.
  destruct (Z.to_nat (maxRetries config + 1)) as [ | fuel] eqn:Hfuel; [lia | ].
  rewrite withRetry_loop_step by lia.
  destruct (try_block_run fn 1 w) as (w1 & -> & Ho1 & Ht1 & Happ).
  rewrite Hfn in *. simpl in *.
  destruct (Happ _ eq_refl) as [_ Hcon1].
  unfold catch_block.
  destruct (maxRetries config <? 1).
  - unfold bind at 1.
    destruct (onMaxRetriesReached config) as [f | ];
      unfold callback, effect, ret, bind, logging;
      cbv beta iota;
      rewrite logError_propagates_classification_failure
        with (t := TypeError_read "toLowerCase") by reflexivity;
      simpl; eexists; repeat split; simpl; assumption.
  - unfold bind, eval. simpl.
    eexists; repeat split; simpl; assumption.
Qed.

End WithRetryRuns.

(** ** More on [retryTransaction] *)

Lemma backoff_schedule_cons :
  forall attempt n,
    backoff_schedule attempt (S n)
    = 2 ^ attempt * 100 :: backoff_schedule (attempt + 1) n.
Proof.
  intros attempt n. unfold backoff_schedule. simpl.
  rewrite Z.add_0_r. f_equal.
  rewrite <- seq_shift, map_map. apply map_ext.
  intro i. f_equal. f_equal. lia.
Qed.

Section RetryTransactionRuns.

Import Transactions.

Variables Db T : Type.

Local Abbreviation World := (Transactions.World Db T).
Local Abbreviation PrismaClient := (Transactions.PrismaClient Db T).
Local Abbreviation TransactionFn := (Transactions.TransactionFn Db T).

Local Open Scope list_scope.

(** Every run of the loop, once entered with enough fuel. *)
Lemma retryTransaction_loop_run :
  forall (client : PrismaClient) (fn : TransactionFn) maxRetries options
         fuel attempt lastError (w : World),
    attempt <= maxRetries ->
    (Z.to_nat (maxRetries + 1 - attempt) <= fuel)%nat ->
    exists r w' es,
      retryTransaction_loop fuel client fn maxRetries options attempt
                            lastError w = Some (r, w')
      /\ results w' = results w ++ map Throw es ++ [r]
      /\ sleeps w' = sleeps w ++ backoff_schedule attempt (length es)
      /\ (length es <= Z.to_nat (maxRetries - attempt))%nat
      /\ Forall (fun e => isRetryable e = true) es.
Proof.
  intros client fn maxRetries options fuel.
  induction fuel as [ | fuel IH]; intros attempt lastError w Hin Hfuel;
    [lia | ].
  rewrite retryTransaction_loop_step by exact Hin.
  destruct (withTransaction client fn options w) as [[v | e] w1] eqn:Hw;
    pose proof (withTransaction_results _ _ _ _ Hw) as Hres.
  - exists (Normal v), w1, []. split; [reflexivity | ].
    split; [exact Hres | ]. split.
    + unfold withTransaction in Hw.
      destruct (dollar_transaction client fn _ _ (db w)) as [r0 d].
      injection Hw as _ <-. simpl. now rewrite app_nil_r.
    + split; [simpl; lia | constructor].
  - assert (Hs1 : sleeps w1 = sleeps w).
    { unfold withTransaction in Hw.
      destruct (dollar_transaction client fn _ _ (db w)) as [r0 d].
      injection Hw as _ <-. reflexivity. }
    destruct (isRetryable e) eqn:He; simpl negb; simpl orb.
    + destruct (attempt =? maxRetries) eqn:Hlast.
      * exists (Throw e), w1, []. split; [reflexivity | ].
        split; [exact Hres | ]. split; [simpl; now rewrite app_nil_r | ].
        split; [simpl; lia | constructor].
      * apply Z.eqb_neq in Hlast.
        destruct (IH (attempt + 1) (Some e)
                     (snd (sleep (2 ^ attempt * 100) w1)))
          as (r & w' & es & Hrun & Ho & Hsl & Hlen & Hes); [lia | lia | ].
        exists r, w', (e :: es). split; [exact Hrun | ]. split.
        { rewrite Ho. simpl. rewrite Hres, <- app_assoc. reflexivity. }
        split.
        { rewrite Hsl. simpl length. rewrite backoff_schedule_cons.
          simpl. rewrite Hs1, <- app_assoc. reflexivity. }
        split; [simpl; lia | constructor; assumption].
    + exists (Throw e), w1, []. split; [reflexivity | ].
      split; [exact Hres | ]. split; [simpl; now rewrite app_nil_r | ].
      split; [simpl; lia | constructor].
Qed.

(** X14.  Whatever the client does, with [maxRetries >= 1]
    [retryTransaction] submits the transaction at least once and at most
    [maxRetries] times; it completes exactly as the last submission did, and
    every earlier submission failed with a retryable storage signature. *)
Theorem retryTransaction_submission_bound :
  forall (client : PrismaClient) (fn : TransactionFn) maxRetries options
         (w : World),
    1 <= maxRetries ->
    exists r w' es,
      retryTransaction client fn (Some maxRetries) options w = Some (r, w')
      /\ results w' = results w ++ map Throw es ++ [r]
      /\ (length (map (@Throw T) es ++ [r]) <= Z.to_nat maxRetries)%nat
      /\ Forall (fun e => isRetryable e = true) es.
Proof.
  intros client fn maxRetries options w Hmax. unfold retryTransaction.
  destruct (@retryTransaction_loop_run client fn maxRetries options
              (Z.to_nat maxRetries) 1 None w)
    as (r & w' & es & Hrun & Ho & _ & Hlen & Hes); [lia | lia | ].
  exists r, w', es. split; [exact Hrun | ]. split; [exact Ho | ].
  split; [ | exact Hes].
  rewrite length_app, length_map. cbn [length]. lia.
Qed.




End RetryTransactionRuns.

(** ** The tables: strategies, statuses, messages *)

Lemma is_ErrorCode_In :
  forall code, is_ErrorCode code = true -> In code ErrorCode_values.
Proof.
  intros code H. unfold is_ErrorCode, array_includes in H.
  apply existsb_exists in H. destruct H as (x & Hin & Heq).
  apply String.eqb_eq in Heq. now subst.
Qed.

(** Case analysis over the seventeen members of the enum. *)
Ltac enum_cases H :=
  apply is_ErrorCode_In in H; simpl in H;
  repeat (destruct H as [H | H]; [subst | ]); [ .. | contradiction H].

(** For a generic exception, retryable and "network" are the same thing. *)
Lemma classifyJavaScriptError_network_iff_retryable :
  forall name message,
    category (classifyJavaScriptError name message) = network
    <-> ErrorHandler.isRetryable (classifyJavaScriptError name message) = true.
Proof.
  intros name message. unfold classifyJavaScriptError.
  split_ifs; simpl; split; intro H; solve [reflexivity | discriminate H].
Qed.

Section StrategyFacts.

Variable S : Type.

(** X17.  For every error of the declared type, [getRetryOptionsForError]
    returns the empty options object exactly when [isRetryableError], under
    the default policy, says the error is not to be retried: a strategy is
    offered for precisely the errors that get retried. *)
Theorem getRetryOptionsForError_empty_iff_not_retryable :
  forall error,
    of_declared_type error = true ->
    exists o,
      getRetryOptionsForError S error = Normal o
      /\ (o = no_options S <-> isRetryableError error None = Normal false).
Proof.
  intros [ | s | name message | code message ] H; try discriminate H.
  - unfold getRetryOptionsForError. simpl.
    change (isRetryableError (JsError name message) None)
      with (Normal (ErrorHandler.isRetryable
                      (classifyJavaScriptError name message))).
    pose proof (classifyJavaScriptError_network_iff_retryable name message)
      as Hnet.
    destruct (category (classifyJavaScriptError name message));
      eexists; (split; [reflexivity | ]);
      destruct (ErrorHandler.isRetryable
                  (classifyJavaScriptError name message));
      split; intro H0;
      solve [reflexivity | discriminate H0
            | destruct Hnet as [Hn1 Hn2];
              first [discriminate (Hn1 eq_refl) | discriminate (Hn2 eq_refl)]].
  - simpl in H. enum_cases H;
      (eexists; split; [reflexivity | ]);
      split; intro H0; solve [reflexivity | discriminate H0].
Qed.

(** X18.  Whatever error of the declared type it is asked about, the
    options [getRetryOptionsForError] returns, laid over the defaults, give
    a policy with at least one retry, a positive base delay not above the
    cap, and a multiplier of at least one. *)
Theorem getRetryOptionsForError_well_formed :
  forall error,
    of_declared_type error = true ->
    exists o,
      getRetryOptionsForError S error = Normal o
      /\ well_formed (merge (DEFAULT_RETRY_OPTIONS S) o).
Proof.
  intros [ | s | name message | code message ] H; try discriminate H.
  - unfold getRetryOptionsForError. simpl.
    destruct (category (classifyJavaScriptError name message));
      eexists; (split; [reflexivity | ]);
      unfold well_formed; simpl; repeat split; solve [lia | discriminate].
  - simpl in H. enum_cases H;
      (eexists; split; [reflexivity | ]);
      unfold well_formed; simpl; repeat split; solve [lia | discriminate].
Qed.

End StrategyFacts.

Lemma getRetryOptionsForError_empty_iff_not_retryable_witness :
  exists o,
    getRetryOptionsForError unit (JsApiError NOT_FOUND "no such user") = Normal o
    /\ (o = no_options unit <->
        isRetryableError (JsApiError NOT_FOUND "no such user") None
        = Normal false).
Proof.
  apply (@getRetryOptionsForError_empty_iff_not_retryable unit).
  reflexivity.
Defined.

Lemma getRetryOptionsForError_well_formed_witness :
  exists o,
    getRetryOptionsForError unit (JsError "Error" "fetch failed") = Normal o
    /\ well_formed (merge (DEFAULT_RETRY_OPTIONS unit) o).
Proof.
  apply (@getRetryOptionsForError_well_formed unit).
  reflexivity.
Defined.

(** X19.  The status table agrees with the classifier on every member of
    the enum: a code classified as the user's or the business's concern has
    a 4xx status, a code with a 5xx status is classified system or network,
    a retryable code has status 429, 500 or 503, and every status lies
    between 400 and 503. *)
Theorem getStatusCodeFromErrorCode_agrees_with_classifier :
  forall code,
    is_ErrorCode code = true ->
    let c := classifyApiErrorResponse code in
    let status := getStatusCodeFromErrorCode code in
    400 <= status <= 503
    /\ (category c = user \/ category c = business -> status < 500)
    /\ (500 <= status -> category c = system \/ category c = network)
    /\ (ErrorHandler.isRetryable c = true ->
        status = 429 \/ status = 500 \/ status = 503).
Proof.
  intros code H. enum_cases H; vm_compute;
    (split; [split; discriminate | ]);
    (split; [intros [H0 | H0]; solve [reflexivity | discriminate H0] | ]);
    (split; [intro H0; first [now left | now right | now elim H0] | ]);
    intro H0; first [discriminate H0 | now left | now (right; left)
                    | now (right; right)].
Qed.

Lemma getStatusCodeFromErrorCode_agrees_with_classifier_witness :
  400 <= getStatusCodeFromErrorCode RATE_LIMIT_EXCEEDED <= 503.
Proof.
  apply (@getStatusCodeFromErrorCode_agrees_with_classifier
           RATE_LIMIT_EXCEEDED).
  reflexivity.
Defined.

(** X20.  Among the members of the enum exactly one has a client-error
    status and yet classifies as not operational (hence critical):
    [BUSINESS_RULE_VIOLATION], which the status table maps to 400 and the
    classifier's [switch] does not list. *)
Theorem BUSINESS_RULE_VIOLATION_is_the_odd_one :
  forall code,
    is_ErrorCode code = true ->
    (getStatusCodeFromErrorCode code < 500
     /\ isOperational (classifyApiErrorResponse code) = false)
    <-> code = BUSINESS_RULE_VIOLATION.
Proof.
  intros code H. enum_cases H; vm_compute; split;
    solve [ intros [H1 H2]; first [discriminate H1 | discriminate H2
                                  | reflexivity]
          | intro H0; first [discriminate H0 | split; reflexivity] ].
Qed.

Lemma BUSINESS_RULE_VIOLATION_is_the_odd_one_witness :
  getStatusCodeFromErrorCode BUSINESS_RULE_VIOLATION < 500
  /\ isOperational (classifyApiErrorResponse BUSINESS_RULE_VIOLATION) = false.
Proof.
  apply (@BUSINESS_RULE_VIOLATION_is_the_odd_one BUSINESS_RULE_VIOLATION).
  - reflexivity.
  - reflexivity.
Defined.

(** X21.  For every error of the declared type and either locale (or none,
    which means Japanese) [getUserFriendlyMessage] returns a message, and
    the message is not empty; for a structured error it is the table's own
    entry for the code, so the [INTERNAL_ERROR] fallback is never needed. *)
Theorem getUserFriendlyMessage_defined :
  forall error locale,
    of_declared_type error = true ->
    exists m,
      getUserFriendlyMessage error locale = Normal (Some m)
      /\ m <> ""
      /\ (forall code msg,
            error = JsApiError code msg ->
            lookup code
              (messages (match locale with Some l => l | None => ja end))
            = Some m).
Proof.
  intros [ | s | name message | code message ] locale H; try discriminate H.
  - unfold getUserFriendlyMessage. simpl.
    unfold getUserFriendlyJavaScriptErrorMessage.
    destruct (category (classifyJavaScriptError name message));
      destruct locale as [[ | ] | ]; eexists;
      (split; [reflexivity | ]);
      (split; [discriminate | ]); intros c0 m0 H0; discriminate H0.
  - simpl in H. enum_cases H; destruct locale as [[ | ] | ];
      eexists; (split; [reflexivity | ]);
      (split; [discriminate | ]);
      intros c0 m0 H0; injection H0 as <- _; reflexivity.
Qed.

Lemma getUserFriendlyMessage_defined_witness :
  exists m,
    getUserFriendlyMessage (JsApiError CONFLICT "duplicate") (Some en)
    = Normal (Some m)
    /\ m <> "".
Proof.
  destruct (@getUserFriendlyMessage_defined
              (JsApiError CONFLICT "duplicate") (Some en) eq_refl)
    as (m & Hm & Hne & _).
  exists m. split; assumption.
Defined.

(* ================================================================== *)
(** * The further properties at concrete inputs *)

Section MoreInstances.

Import Examples MoreExamples.

Local Open Scope list_scope.

Lemma withRetry_invocation_bound_witness :
  exists r w' l,
    withRetry production_logger op_fails_then_succeeds no_policy (world_with 5)
    = Some (r, w')
    /\ outcomes w' = outcomes (world_with 5) ++ l
    /\ (1 <= length l
        <= Z.to_nat (maxRetries (merge (DEFAULT_RETRY_OPTIONS nat) no_policy)
                     + 1))%nat.
Proof.
  apply (@withRetry_invocation_bound nat Z production_logger
           op_fails_then_succeeds no_policy (world_with 5)).
  simpl. lia.
Defined.

Lemma withRetry_record_shape_witness :
  exists r w' es r_last,
    withRetry production_logger op_fails_then_succeeds no_policy (world_with 1)
    = Some (r, w')
    /\ outcomes w' = outcomes (world_with 1) ++ map Throw es ++ [r_last]
    /\ Forall (fun e =>
                 isRetryableError e
                   (retryableErrors
                      (merge (DEFAULT_RETRY_OPTIONS nat) no_policy))
                 = Normal true) es
    /\ (forall v, r = Normal v <-> r_last = Normal v).
Proof.
  apply (@withRetry_record_shape nat Z production_logger
           op_fails_then_succeeds no_policy (world_with 1)).
  simpl. lia.
Defined.

Lemma withRetry_sleeps_witness :
  exists r w' l ds,
    withRetry production_logger op_fails_then_succeeds no_policy (world_with 2)
    = Some (r, w')
    /\ outcomes w' = outcomes (world_with 2) ++ l
    /\ timers w' = timers (world_with 2) ++ ds
    /\ S (length ds) = length l
    /\ Forall (fun d =>
                 isNaN d = true
                 \/ leb d (maxDelay (merge (DEFAULT_RETRY_OPTIONS nat)
                                           no_policy)) = true)
              ds.
Proof.
  apply (@withRetry_sleeps nat Z production_logger
           op_fails_then_succeeds no_policy (world_with 2)).
  simpl. lia.
Defined.

(** X12 on the scenario "fails twice, then succeeds" under the default
    policy. *)
Lemma withRetry_recovers_witness :
  exists w' es ds,
    withRetry production_logger op_fails_then_succeeds no_policy (world_with 2)
    = Some (Normal 42, w')
    /\ outcomes w' = outcomes (world_with 2) ++ map Throw es ++ [Normal 42]
    /\ length es = 2%nat
    /\ timers w' = timers (world_with 2) ++ ds
    /\ length ds = 2%nat.
Proof.
  apply (@withRetry_recovers nat Z production_logger op_fails_then_succeeds
           no_policy (world_with 2) (fun n => n) (Normal 42)).
  - intros s n Hs. rewrite Hs. exists network_timeout, n.
    repeat split; reflexivity.
  - intros s Hs. rewrite Hs. exists O. reflexivity.
  - intros f a e s H. discriminate H.
  - exact I.
  - simpl. lia.
Defined.

(** The same run, evaluated: one warning per retry, then the recovery
    message. *)
Lemma withRetry_fails_twice_then_succeeds :
  option_map (fun r => (fst r, outcomes (snd r), timers (snd r),
                        map (fun o => match o with
                                      | Console _ d => ld_message d
                                      | Monitoring _ m => m
                                      end) (console (snd r))))
    (withRetry production_logger op_fails_then_succeeds no_policy
               (world_with 2))
  = Some (Normal 42,
          [Throw network_timeout; Throw network_timeout; Normal 42],
          [of_Z 1000; of_Z 2000],
          ["Retrying after error (attempt 1/3)";
           "Retrying after error (attempt 2/3)";
           "Function succeeded after 2 retries"]).
Proof. vm_compute. reflexivity. Qed.

Lemma withRetry_string_rejection_masked_witness :
  exists w',
    withRetry production_logger (op_always_throws (JsString "boom"))
              (policy (Some 3) None) world0
    = Some (Throw (TypeError_read "toLowerCase"), w')
    /\ outcomes w' = outcomes world0 ++ [Throw (JsString "boom")]
    /\ console w' = console world0
    /\ timers w' = timers world0.
Proof.
  apply (@withRetry_string_rejection_masked unit unit production_logger
           (op_always_throws (JsString "boom")) (policy (Some 3) None)
           world0 "boom" tt).
  - simpl. lia.
  - reflexivity.
Defined.

Import Transactions.

Lemma retryTransaction_submission_bound_witness :
  exists r w' es,
    retryTransaction client_deadlocks_then_commits tx_fn (Some 3) tx_options0
                     (tx_world_with 5) = Some (r, w')
    /\ results w' = results (tx_world_with 5) ++ map Throw es ++ [r]
    /\ (length (map (@Throw Z) es ++ [r]) <= Z.to_nat 3)%nat
    /\ Forall (fun e => isRetryable e = true) es.
Proof.
  apply (@retryTransaction_submission_bound nat Z
           client_deadlocks_then_commits tx_fn 3 tx_options0 (tx_world_with 5)).
  lia.
Defined.



(** The same run, evaluated: two deadlocks, a commit, sleeps of 200 and
    400 ms. *)
Lemma retryTransaction_deadlocks_twice_then_commits :
  retryTransaction client_deadlocks_then_commits tx_fn (Some 4) tx_options0
                   (tx_world_with 2)
  = Some (Normal 7,
          mkWorld O [Throw deadlock; Throw deadlock; Normal 7] [200; 400]).
Proof. reflexivity. Qed.

End MoreInstances.

(** ** What a fast failure leaves in the log *)

Section FastFailLog.

Variables S T : Type.
Variable lg : ErrorLogger.

Local Open Scope list_scope.

(** X22.  When the first invocation rejects with a non-retryable error that
    classifies as [c] and retries were available ([maxRetries >= 1]),
    [withRetry] rethrows it after a single log emission: one console record
    with the message "Non-retryable error encountered" at the level of
    [c]'s severity (followed by its monitoring record when that level is
    [ERROR] outside development mode), and no sleep. *)
Theorem withRetry_fast_fail_logs_once :
  forall (fn : Retry.Operation S T) options (w : Retry.World S T) e s' c,
    1 <= maxRetries (merge (DEFAULT_RETRY_OPTIONS S) options) ->
    fn (app w) = (Throw e, s') ->
    isRetryableError e
      (retryableErrors (merge (DEFAULT_RETRY_OPTIONS S) options))
    = Normal false ->
    classifyError e = Normal c ->
    exists w' data,
      withRetry lg fn options w = Some (Throw e, w')
      /\ console w'
         = console w
           ++ Console (getLogLevel c) data
              :: (if (negb (isDevelopment lg)
                      && LogLevel_eqb (getLogLevel c) ERROR)%bool
                  then [Monitoring (getLogLevel c)
                                   "Non-retryable error encountered"]
                  else [])
      /\ ld_message data = "Non-retryable error encountered"
      /\ timers w' = timers w.
Proof.
  intros fn options w e s' c Hmax Hfn Hnr Hc. unfold withRetry.
  set (config := merge (DEFAULT_RETRY_OPTIONS S) options) in *.
  assert (Hlt : (maxRetries config <? 1) = false) by (apply Z.ltb_ge; lia).
  destruct (Z.to_nat (maxRetries config + 1)) as [ | fuel] eqn:Hfuel; [lia | ].
  rewrite withRetry_loop_step by lia.
  destruct (try_block_run lg fn 1 w) as (w1 & -> & _ & Ht1 & Happ).
  rewrite Hfn in *. cbn [fst snd] in *.
  destruct (Happ e eq_refl) as [_ Hcon1].
  destruct (logError_run lg e (Some "Non-retryable error encountered")
              (console w1) Hc) as (data & Hlog & _ & _ & Hmsg).
  assert (Hm : ld_message data = "Non-retryable error encountered")
    by (apply Hmsg; [reflexivity | discriminate]).
  unfold catch_block.
  rewrite Hlt. unfold bind at 1. unfold eval. rewrite Hnr.
  unfold bind, logging. cbn [negb]. cbv beta iota. rewrite Hlog. simpl.
  eexists. exists data. split; [reflexivity | ]. simpl.
  rewrite Hm, Hcon1. repeat split. exact Ht1.
Qed.

End FastFailLog.

Lemma withRetry_fast_fail_logs_once_witness :
  exists w' data,
    withRetry Examples.production_logger
              (Examples.op_always_throws Examples.invalid_data)
              (Examples.policy None None) Examples.world0
    = Some (Throw Examples.invalid_data, w')
    /\ console w' = (console Examples.world0 ++ [Console INFO data])%list
    /\ ld_message data = "Non-retryable error encountered"
    /\ timers w' = timers Examples.world0.
Proof.
  apply (@withRetry_fast_fail_logs_once unit unit Examples.production_logger
           (Examples.op_always_throws Examples.invalid_data)
           (Examples.policy None None) Examples.world0
           Examples.invalid_data tt
           (mkClassification true false low user)).
  - simpl. lia.
  - reflexivity.
  - reflexivity.
  - reflexivity.
Defined.

(** ** Structured errors, at every attempt *)

Section StructuredErrors.

Variables S T : Type.
Variable lg : ErrorLogger.

Local Open Scope list_scope.

(** Along the loop: an invocation that rejects with a structured error
    while attempts remain is followed by another one exactly when its code
    is in the policy's list. *)
Lemma withRetry_loop_structured :
  forall (config : Retry.RetryOptions S) (fn : Retry.Operation S T)
         fuel attempt lastError (w : Retry.World S T),
    (Z.to_nat (maxRetries config + 2 - attempt) <= fuel)%nat ->
    exists r w' l,
      withRetry_loop lg fuel config fn attempt lastError w = Some (r, w')
      /\ outcomes w' = outcomes w ++ l
      /\ (attempt <= maxRetries config + 1 -> l <> [])
      /\ (forall i code msg,
            nth_error l i = Some (Throw (JsApiError code msg)) ->
            attempt + Z.of_nat i <= maxRetries config ->
            ((Datatypes.S i < length l)%nat
             <-> array_includes (policy_codes config) code = true)).
Proof.
  intros config fn fuel.
  induction fuel as [ | fuel IH]; intros attempt lastError w Hfuel.
  - simpl. destruct (attempt <=? maxRetries config + 1) eqn:Hc;
      [apply Z.leb_le in Hc; lia | apply Z.leb_gt in Hc].
    eexists _, w, []. split; [reflexivity | ].
    split; [now rewrite app_nil_r | ]. split; [lia | ].
    intros [ | i] code msg H; discriminate H.
  - destruct (Z_le_gt_dec attempt (maxRetries config + 1)) as [Hc | Hc].
    + rewrite withRetry_loop_step by exact Hc.
      destruct (try_block_run lg fn attempt w) as (w1 & -> & Ho1 & _).
      destruct (fst (fn (app w))) as [v | e].
      * exists (Normal v), w1, [Normal v]. split; [reflexivity | ].
        split; [exact Ho1 | ]. split; [discriminate | ].
        intros [ | [ | i]] code msg H; discriminate H.
      * pose proof (catch_block_outcomes lg config attempt e w1) as Hq.
        destruct (catch_block lg config attempt e w1) as [[u | e'] w2] eqn:Hcb;
          simpl in Hq.
        -- destruct (IH (attempt + 1) (Some e) w2)
             as (r & w' & l & Hrun & Ho & Hne & Hall); [lia | ].
           exists r, w', (Throw e :: l). split; [exact Hrun | ].
           split; [rewrite Ho, Hq, Ho1, <- app_assoc; reflexivity | ].
           split; [discriminate | ].
           intros [ | i] code msg Hnth Hleft.
           ++ injection Hnth as ->. rewrite Z.add_0_r in Hleft.
              pose proof (isRetryableError_structured code msg
                            (retryableErrors config)) as Hdec.
              fold (policy_codes config) in Hdec.
              destruct (array_includes (policy_codes config) code).
              ** split; [reflexivity | ]. intros _.
                 assert (l <> []) by (apply Hne; lia).
                 destruct l; [contradiction | simpl; lia].
              ** destruct (@catch_block_fail_fast S T lg config attempt _ w1
                             Hleft Hdec) as (w2' & Hff & _).
                 rewrite Hff in Hcb. discriminate Hcb.
           ++ simpl in Hnth.
              specialize (Hall i code msg Hnth). simpl length.
              rewrite <- Hall by lia. lia.
        -- exists (Throw e'), w2, [Throw e]. split; [reflexivity | ].
           split; [congruence | ]. split; [discriminate | ].
           intros [ | [ | i]] code msg Hnth Hleft; try discriminate Hnth.
           injection Hnth as ->. rewrite Z.add_0_r in Hleft.
           pose proof (isRetryableError_structured code msg
                         (retryableErrors config)) as Hdec.
           fold (policy_codes config) in Hdec.
           destruct (array_includes (policy_codes config) code).
           ++ destruct (@catch_block_retry S T lg config attempt _ w1
                          Hleft Hdec) as (w2' & Hrt & _).
              rewrite Hrt in Hcb. discriminate Hcb.
           ++ simpl. split; [lia | discriminate].
    + simpl. assert (Hf : (attempt <=? maxRetries config + 1) = false)
        by (apply Z.leb_gt; lia).
      rewrite Hf. eexists _, w, []. split; [reflexivity | ].
      split; [now rewrite app_nil_r | ]. split; [lia | ].
      intros [ | i] code msg H; discriminate H.
Qed.

(** C7, as the code has it.  In every run of [withRetry], whenever an
    invocation -- the first or a later one -- rejects with a structured
    error while attempts remain (it is invocation number [i + 1] with
    [i < maxRetries]), the operation is invoked again if and only if the
    error's code is a member of the policy's list of retryable codes (the
    default list when the policy gives none); the classifier's verdict on
    the code plays no part. *)
Theorem withRetry_structured_retry_iff_listed :
  forall (fn : Retry.Operation S T) options (w : Retry.World S T),
  exists r w' l,
    withRetry lg fn options w = Some (r, w')
    /\ outcomes w' = outcomes w ++ l
    /\ (forall i code msg,
          nth_error l i = Some (Throw (JsApiError code msg)) ->
          Z.of_nat i < maxRetries (merge (DEFAULT_RETRY_OPTIONS S) options) ->
          ((Datatypes.S i < length l)%nat
           <-> array_includes
                 (policy_codes (merge (DEFAULT_RETRY_OPTIONS S) options)) code
               = true)).
Proof.
  intros fn options w. unfold withRetry.
  set (config := merge (DEFAULT_RETRY_OPTIONS S) options).
  destruct (@withRetry_loop_structured config fn
              (Z.to_nat (maxRetries config + 1)) 1 None w)
    as (r & w' & l & Hrun & Ho & _ & Hall); [lia | ].
  exists r, w', l. split; [exact Hrun | ]. split; [exact Ho | ].
  intros i code msg Hnth Hleft. apply (Hall i code msg Hnth). lia.
Qed.

End StructuredErrors.

(** C7 on a run with two structured failures: a listed code at the first
    invocation, an unlisted one at the second. *)
Lemma withRetry_structured_retry_iff_listed_witness :
  exists r w' l,
    withRetry Examples.production_logger MoreExamples.op_database_then_conflict
              MoreExamples.no_policy (MoreExamples.world_with 0)
    = Some (r, w')
    /\ outcomes w' = (outcomes (MoreExamples.world_with 0) ++ l)%list
    /\ (forall i code msg,
          nth_error l i = Some (Throw (JsApiError code msg)) ->
          Z.of_nat i
          < maxRetries (merge (DEFAULT_RETRY_OPTIONS nat)
                              MoreExamples.no_policy) ->
          ((S i < length l)%nat
           <-> array_includes
                 (policy_codes (merge (DEFAULT_RETRY_OPTIONS nat)
                                      MoreExamples.no_policy)) code
               = true)).
Proof.
  apply (@withRetry_structured_retry_iff_listed nat Z
           Examples.production_logger MoreExamples.op_database_then_conflict
           MoreExamples.no_policy (MoreExamples.world_with 0)).
Defined.

(** That run, evaluated: the storage error is retried, the conflict at the
    second invocation is not. *)
Lemma withRetry_database_then_conflict :
  option_map (fun r => (fst r, outcomes (snd r)))
    (withRetry Examples.production_logger
               MoreExamples.op_database_then_conflict
               MoreExamples.no_policy (MoreExamples.world_with 0))
  = Some (Throw (JsApiError CONFLICT "duplicate"),
          [Throw (JsApiError DATABASE_ERROR "connection lost");
           Throw (JsApiError CONFLICT "duplicate")]).
Proof. vm_compute. reflexivity. Qed.
